(** * LiCSBAS_disp_img: display of a float32 raster

    A shallow embedding of [bin/LiCSBAS_disp_img.py].  The script is a linear
    pipeline: read the options, check the two paths, extract width and length
    from the parameter file with [grep], read the raster, wrap the phase when
    the colormap is [insar], settle the colour range and hand the figure to
    the plotting backend.

    Number model.  A Python or NumPy float is a real number or NaN
    ([float] below); rounding, overflow and the infinities are left out.
    [None] is [option]'s [None]. *)

From Stdlib Require Import Reals Lra Lia ZArith List Bool Ascii String.
From Stdlib Require Import Sorted Permutation.
Import ListNotations.

Local Open Scope R_scope.

(** ** Python built-ins the script relies on *)

Module Py.

Local Open Scope string_scope.
Local Open Scope nat_scope.

(** Exceptions the script can meet. *)
Inductive exn : Type :=
| ValueError
| IndexError
| ZeroDivisionError
| CalledProcessError
| OtherError.

(** A computation that may raise. *)
Inductive exc (A : Type) : Type :=
| ok (a : A)
| raise (e : exn).
Arguments ok {A} a.
Arguments raise {A} e.

Definition bind {A B : Type} (m : exc A) (f : A -> exc B) : exc B :=
  match m with
  | ok a => f a
  | raise e => raise e
  end.

(** [try: m except: h], with a bare [except]. *)
Definition try_except {A : Type} (m h : exc A) : exc A :=
  match m with
  | ok a => ok a
  | raise _ => h
  end.

(** [s.startswith(p)] *)
Definition startswith (s p : string) : bool := String.prefix p s.

(** [s.endswith(p)] *)
Definition endswith (s p : string) : bool :=
  (String.length p <=? String.length s) &&
  String.eqb (String.substring (String.length s - String.length p)
                               (String.length p) s) p.

(** [s[n:]] *)
Definition drop (n : nat) (s : string) : string :=
  String.substring n (String.length s - n) s.

(** [s[:n]] for [n <= len(s)] *)
Definition take (n : nat) (s : string) : string := String.substring 0 n s.

(** [p in s] for strings: [p] occurs in [s]. *)
Fixpoint contains (s p : string) : bool :=
  String.prefix p s ||
  match s with
  | EmptyString => false
  | String _ s' => contains s' p
  end.

(** [s.index(c)] for a one-character [c]; [None] is its [ValueError]. *)
Fixpoint index_char (c : ascii) (s : string) : option nat :=
  match s with
  | EmptyString => None
  | String d s' =>
      if Ascii.eqb c d then Some 0
      else option_map S (index_char c s')
  end.

(** The characters [str.split()] and [str.strip()] treat as white space,
    among the ASCII ones: tab, line feed, vertical tab, form feed,
    carriage return, the four separators 28 to 31 and the space. *)
Definition isspace (c : ascii) : bool :=
  let n := nat_of_ascii c in
  ((9 <=? n) && (n <=? 13)) || ((28 <=? n) && (n <=? 32)).

(** [s.split()]: the maximal runs of characters that are not white
    space.  [cur] holds the run being read, reversed. *)
Fixpoint split_aux (s : string) (cur : list ascii) : list string :=
  let flush (k : list string) :=
    match cur with
    | [] => k
    | _ => string_of_list_ascii (rev cur) :: k
    end in
  match s with
  | EmptyString => flush []
  | String c s' =>
      if isspace c then flush (split_aux s' [])
      else split_aux s' (c :: cur)
  end.

Definition split (s : string) : list string := split_aux s [].

(** [s.strip()] *)
Fixpoint lstrip (s : string) : string :=
  match s with
  | String c s' => if isspace c then lstrip s' else s
  | EmptyString => EmptyString
  end.

Definition reverse (s : string) : string :=
  string_of_list_ascii (rev (list_ascii_of_string s)).

Definition strip (s : string) : string :=
  reverse (lstrip (reverse (lstrip s))).

(** [l[i]] on a list. *)
Definition item {A : Type} (l : list A) (i : nat) : exc A :=
  match nth_error l i with
  | Some a => ok a
  | None => raise IndexError
  end.

Definition digit (c : ascii) : option Z :=
  let n := nat_of_ascii c in
  if (48 <=? n) && (n <=? 57) then Some (Z.of_nat (n - 48)) else None.

(** The digits of an integer literal: a digit, then digits each
    optionally preceded by one underscore. *)
Fixpoint int_digits (s : string) (acc : Z) : option Z :=
  match s with
  | EmptyString => Some acc
  | String c s' =>
      if Ascii.eqb c "_"%char then
        match s' with
        | String d s'' =>
            match digit d with
            | Some v => int_digits s'' (10 * acc + v)%Z
            | None => None
            end
        | EmptyString => None
        end
      else
        match digit c with
        | Some v => int_digits s' (10 * acc + v)%Z
        | None => None
        end
  end.

Definition int_unsigned (s : string) : option Z :=
  match s with
  | String c s' =>
      match digit c with
      | Some v => int_digits s' v
      | None => None
      end
  | EmptyString => None
  end.

(** [int(s)] on a string without white space: an optional sign and a
    decimal literal. *)
Definition int (s : string) : exc Z :=
  let r :=
    match s with
    | String "-" s' => option_map Z.opp (int_unsigned s')
    | String "+" s' => int_unsigned s'
    | _ => int_unsigned s
    end in
  match r with
  | Some z => ok z
  | None => raise ValueError
  end.

End Py.

Notation "x <- m ;; k" := (Py.bind m (fun x => k))
  (at level 61, m at next level, right associativity).

(** ** The [getopt] module of the standard library

    [getopt.getopt(args, shortopts, longopts)], with its helpers under
    their own names.  A [GetoptError] carries its message. *)

Module Getopt.

Local Open Scope string_scope.
Local Open Scope nat_scope.

Inductive res (A : Type) : Type :=
| parsed (a : A)
| GetoptError (msg : string).
Arguments parsed {A} a.
Arguments GetoptError {A} msg.

(** One parsed option: the option as written in full, and its argument. *)
Definition opt : Type := (string * string)%type.

Definition char (c : ascii) : string := String c EmptyString.

Fixpoint short_has_arg (o : ascii) (shortopts : string) : res bool :=
  match shortopts with
  | EmptyString => GetoptError ("option -" ++ char o ++ " not recognized")
  | String d rest =>
      if Ascii.eqb o d && negb (Ascii.eqb d ":"%char)
      then parsed (Py.startswith rest ":")
      else short_has_arg o rest
  end.

Definition mem (s : string) (l : list string) : bool :=
  existsb (String.eqb s) l.

Definition long_has_args (o : string) (longopts : list string)
  : res (bool * string) :=
  let possibilities := filter (fun l => Py.startswith l o) longopts in
  match possibilities with
  | [] => GetoptError ("option --" ++ o ++ " not recognized")
  | unique_match :: others =>
      if mem o possibilities then parsed (false, o)
      else if mem (o ++ "=") possibilities then parsed (true, o)
      else
        match others with
        | _ :: _ => GetoptError ("option --" ++ o ++ " not a unique prefix")
        | [] =>
            if Py.endswith unique_match "="
            then parsed (true, Py.take (String.length unique_match - 1)
                                       unique_match)
            else parsed (false, unique_match)
        end
  end.

Definition do_longs (opts : list opt) (o : string) (longopts : list string)
    (args : list string) : res (list opt * list string) :=
  let '(o, optarg) :=
    match Py.index_char "="%char o with
    | None => (o, None)
    | Some i => (Py.take i o, Some (Py.drop (i + 1) o))
    end in
  match long_has_args o longopts with
  | GetoptError msg => GetoptError msg
  | parsed (true, o) =>
      match optarg, args with
      | Some a, _ => parsed (app opts [("--" ++ o, a)], args)
      | None, [] => GetoptError ("option --" ++ o ++ " requires argument")
      | None, a :: args' => parsed (app opts [("--" ++ o, a)], args')
      end
  | parsed (false, o) =>
      match optarg with
      | Some _ =>
          GetoptError ("option --" ++ o ++ " must not have an argument")
      | None => parsed (app opts [("--" ++ o, "")], args)
      end
  end.

Fixpoint do_shorts (opts : list opt) (optstring : string)
    (shortopts : string) (args : list string)
  : res (list opt * list string) :=
  match optstring with
  | EmptyString => parsed (opts, args)
  | String o optstring' =>
      match short_has_arg o shortopts with
      | GetoptError msg => GetoptError msg
      | parsed true =>
          match optstring', args with
          | EmptyString, [] =>
              GetoptError ("option -" ++ char o ++ " requires argument")
          | EmptyString, a :: args' =>
              parsed (app opts [("-" ++ char o, a)], args')
          | _, _ => parsed (app opts [("-" ++ char o, optstring')], args)
          end
      | parsed false =>
          do_shorts (app opts [("-" ++ char o, "")]) optstring' shortopts args
      end
  end.

(** The [while] loop of [getopt]; each turn takes at least one word off
    [args], so [length args] turns are enough. *)
Fixpoint loop (fuel : nat) (opts : list opt) (args : list string)
    (shortopts : string) (longopts : list string)
  : option (res (list opt * list string)) :=
  match args with
  | [] => Some (parsed (opts, args))
  | a :: rest =>
      if negb (Py.startswith a "-") || String.eqb a "-"
      then Some (parsed (opts, args))
      else if String.eqb a "--" then Some (parsed (opts, rest))
      else
        match fuel with
        | O => None
        | S fuel' =>
            let step :=
              if Py.startswith a "--"
              then do_longs opts (Py.drop 2 a) longopts rest
              else do_shorts opts (Py.drop 1 a) shortopts rest in
            match step with
            | GetoptError msg => Some (GetoptError msg)
            | parsed (opts', args') =>
                loop fuel' opts' args' shortopts longopts
            end
        end
  end.

Definition getopt (args : list string) (shortopts : string)
    (longopts : list string) : res (list opt * list string) :=
  match loop (List.length args) [] args shortopts longopts with
  | Some r => r
  | None => GetoptError "unreachable"
  end.

End Getopt.

(** ** [grep] through [subprocess.check_output]

    The parameter file is ASCII text; [grep PATTERN FILE] prints the lines
    of the file in which the pattern occurs, each followed by a line feed.
    The four patterns of the script have no regular-expression operator, so
    a line is selected when the pattern occurs in it as a substring.  An
    exit status other than zero ([1]: no line selected, [2]: the file cannot
    be read) makes [check_output] raise [CalledProcessError]. *)

Module Grep.

Local Open Scope string_scope.

(** The line feed. *)
Definition LF : ascii := ascii_of_nat 10.

(** The lines of a text.  [cur] holds the line being read, reversed; the
    text after the last line feed is a line when it is not empty. *)
Fixpoint lines_aux (s : string) (cur : list ascii) : list string :=
  match s with
  | EmptyString =>
      match cur with
      | [] => []
      | _ => [string_of_list_ascii (rev cur)]
      end
  | String c s' =>
      if Ascii.eqb c LF
      then string_of_list_ascii (rev cur) :: lines_aux s' []
      else lines_aux s' (c :: cur)
  end.

Definition lines (text : string) : list string := lines_aux text [].

Definition selected (pattern text : string) : list string :=
  filter (fun l => Py.contains l pattern) (lines text).

Definition output (ls : list string) : string :=
  String.concat "" (map (fun l => l ++ String LF EmptyString) ls).

(** [subp.check_output(['grep', pattern, file]).decode()], where [text]
    is the content of the file, or [None] when it cannot be read. *)
Definition check_output (pattern : string) (text : option string)
  : Py.exc string :=
  match text with
  | None => Py.raise Py.CalledProcessError
  | Some t =>
      match selected pattern t with
      | [] => Py.raise Py.CalledProcessError
      | ls => Py.ok (output ls)
      end
  end.

End Grep.

(** ** Floats *)

Inductive float : Type :=
| nan
| fin (x : R).

Definition is_nan (f : float) : bool :=
  match f with nan => true | fin _ => false end.

(** ** The NumPy operations the script calls *)

Module Np.

(** [np.pi] *)
Definition pi : float := fin PI.

(** Unary minus. *)
Definition neg (f : float) : float :=
  match f with nan => nan | fin x => fin (- x) end.

(** Binary minus, as in [100-auto_crange]. *)
Definition sub (a b : float) : float :=
  match a, b with
  | fin x, fin y => fin (x - y)
  | _, _ => nan
  end.

(** Complex numbers as (real, imaginary). *)
Definition complex : Type := (R * R)%type.

Definition re (z : complex) : R := fst z.
Definition im (z : complex) : R := snd z.

(** The literal [1j]. *)
Definition j : complex := (0, 1).

(** A real operand of a complex operation. *)
Definition of_real (x : R) : complex := (x, 0).

Definition mul (a b : complex) : complex :=
  (re a * re b - im a * im b, re a * im b + im a * re b).

(** [np.exp] on a complex number. *)
Definition cexp (z : complex) : complex :=
  (exp (re z) * cos (im z), exp (re z) * sin (im z)).

(** [np.arctan2 y x], the angle of the point (x, y), in (-PI, PI]. *)
Definition arctan2 (y x : R) : R :=
  if Rlt_dec 0 x then atan (y / x)
  else if Rlt_dec x 0 then
    if Rle_dec 0 y then atan (y / x) + PI else atan (y / x) - PI
  else if Rlt_dec 0 y then PI / 2
  else if Rlt_dec y 0 then - (PI / 2)
  else 0.

(** [np.angle z] is [arctan2 z.imag z.real]. *)
Definition angle (z : complex) : R := arctan2 (im z) (re z).

(** *** [np.nanpercentile] *)

Definition Rleb (x y : R) : bool := if Rle_dec x y then true else false.

(** The entries that are not NaN, in order. *)
Fixpoint remove_nan (a : list float) : list R :=
  match a with
  | [] => []
  | nan :: t => remove_nan t
  | fin x :: t => x :: remove_nan t
  end.

Fixpoint insert (x : R) (l : list R) : list R :=
  match l with
  | [] => [x]
  | y :: t => if Rleb x y then x :: l else y :: insert x t
  end.

Fixpoint sort (l : list R) : list R :=
  match l with
  | [] => []
  | x :: t => insert x (sort t)
  end.

(** [floor] of a real that is not negative, as an index. *)
Definition floor (r : R) : nat := Z.to_nat (Int_part r).

(** The quantile [q], in [0, 1], of the values [a], with NumPy's default
    linear interpolation between the two nearest ranks. *)
Definition quantile (a : list R) (q : R) : R :=
  let ap := sort a in
  let Nx := List.length a in
  let indices := q * INR (Nx - 1) in
  let indices_below := floor indices in
  let indices_above := Nat.min (indices_below + 1) (Nx - 1) in
  let weights_above := indices - INR indices_below in
  let weights_below := 1 - weights_above in
  nth indices_below ap 0 * weights_below
  + nth indices_above ap 0 * weights_above.

(** [np.nanpercentile(a, q)] on the flattened array: a [ValueError]
    unless [q] is in [0, 100]; NaN when every entry is NaN. *)
Definition nanpercentile (a : list float) (q : float) : Py.exc float :=
  match q with
  | nan => Py.raise Py.ValueError
  | fin p =>
      let q := p / 100 in
      if Rleb 0 q && Rleb q 1 then
        match remove_nan a with
        | [] => Py.ok nan
        | s => Py.ok (fin (quantile s q))
        end
      else Py.raise Py.ValueError
  end.

(** [np.nanmin] and [np.nanmax], the extrema of the entries that are not
    NaN, with which the specification compares the bounds. *)
Definition nanmin (a : list float) : float :=
  match remove_nan a with
  | [] => nan
  | x :: t => fin (fold_left Rmin t x)
  end.

Definition nanmax (a : list float) : float :=
  match remove_nan a with
  | [] => nan
  | x :: t => fin (fold_left Rmax t x)
  end.

End Np.

(** ** The phase wrap of the [insar] colormap

    [data = np.angle(np.exp(1j*(data/cycle))*cycle)], one sample at a time.
    The product with [cycle] is inside the call of [np.angle]. *)

Definition wrap_real (v cycle : R) : R :=
  Np.angle (Np.mul (Np.cexp (Np.mul Np.j (Np.of_real (v / cycle))))
                   (Np.of_real cycle)).

(** A NaN sample or cycle stays NaN; a division by a zero cycle gives an
    infinity or NaN, whose complex exponential is NaN. *)
Definition wrap (v cycle : float) : float :=
  match v, cycle with
  | fin x, fin c => if Req_dec_T c 0 then nan else fin (wrap_real x c)
  | _, _ => nan
  end.

(** The transform as the specification words it: wrap the angle, then
    multiply the result by the cycle. *)
Definition wrap_spec (v cycle : R) : R :=
  Np.arctan2 (sin (v / cycle)) (cos (v / cycle)) * cycle.

(** ** The script *)

Local Open Scope string_scope.

(** The module docstring, which [-h] prints. *)
Definition __doc__ : string := "
========
Overview
========
This script displays an image file (only in float format).

=========
Changelog
=========
v1.1 20190828 Yu Morishita, Uni of Leeds and GSI
 - Add --png option
v1.0 20190729 Yu Morishita, Uni of Leeds and GSI
 - Original implementation

=====
Usage
=====
LiCSBAS_disp_img.py -i image_file -p par_file [-c SCM5.roma_r] [--cmin None] [--cmax None] [--auto_crange 99]  [--cycle 3] [--bigendian] [--png [pngname]]

 -i  Input image file in float32
 -p  Parameter file containing width and length (e.g., EQA.dem_par or mli.par)
 -c  Colormap (see below for available colormap)
     - https://matplotlib.org/3.1.0/tutorials/colors/colormaps.html
     - http://www.fabiocrameri.ch/colourmaps.php
     - insar
     (Default: SCM5.roma_r, reverse of SCM5.roma)
 --cmin|cmax    Min|max values of color (Default: auto)
 --auto_crange  % of color range used for automatic determinatin (Default: 99%)
 --cycle        Value*2pi/cycle if cmap=insar (Default: 3*2pi/cycle)
 --bigendian    If input file is in big endian
 --png          Save png (pdf etc also available) instead of displaying

".

Inductive endianness : Type := little | big.

(** [infile], [parfile] and [pngname] start as the empty list and become
    a string when their option is read. *)
Inductive word : Type :=
| empty_list
| str (s : string).

(** [not w] is [negb (truthy w)]. *)
Definition truthy (w : word) : bool :=
  match w with
  | empty_list => false
  | str s => negb (String.eqb s "")
  end.

(** The variables the options set. *)
Record globals : Type := {
  infile : word;
  parfile : word;
  cmap : string;
  cmin : option float;
  cmax : option float;
  auto_crange : float;
  cycle : float;
  endian : endianness;
  pngname : word
}.

(** Set default *)
Definition defaults : globals := {|
  infile := empty_list;
  parfile := empty_list;
  cmap := "SCM5.roma_r";
  cmin := None;
  cmax := None;
  auto_crange := fin 99;
  cycle := fin 3;
  endian := little;
  pngname := empty_list
|}.

(** After the colormap is set, [cmap] holds a name or, for an SCM5 one,
    the object that the executed expression denotes. *)
Inductive colormap : Type :=
| cmap_name (s : string)
| cmap_object (expr : string).

(** [cmap == 'insar'] *)
Definition is_insar (c : colormap) : bool :=
  match c with
  | cmap_name s => String.eqb s "insar"
  | cmap_object _ => false
  end.

(** The calls to [matplotlib.pyplot], in order; a call that raises is
    among them. *)
Inductive plt_call : Type :=
| plt_register_cmap (name : string)
| plt_figure (name : string) (figsize : R * R)
| plt_imshow (data : list float) (clim : float * float) (c : colormap)
| plt_colorbar
| plt_tight_layout
| plt_savefig (fname : string)
| plt_show.

(** What the script does not define itself: the file system, the float
    parser, the two library modules of the repository and the plotting
    library.
    - [path_exists] is [os.path.exists];
    - [read_text p] is the content [grep] reads at path [p], if it can;
    - [float_of_string] is [float(a)], [None] for its [ValueError];
    - [read_img] is [io_lib.read_img], which returns the samples in
      row-major order;
    - [exec_defined e] tells whether the expression [e] that [exec]
      evaluates for an SCM5 colormap is defined;
    - [plt_raises c] is the exception that the call [c] raises in
      [matplotlib.pyplot], if it raises one: [imshow] for a colormap name
      that is not registered, [savefig] for a format or a directory it
      cannot write, and so on. *)
Record env : Type := {
  path_exists : string -> bool;
  read_text : string -> option string;
  float_of_string : string -> option float;
  read_img : string -> Z -> Z -> endianness -> Py.exc (list float);
  exec_defined : string -> bool;
  plt_raises : plt_call -> option Py.exn
}.

(** How a run ends: [sys.exit] with a code, an exception nobody catches
    (a traceback and exit status 1), or the end of the script. *)
Inductive status : Type :=
| exited (code : Z)
| traceback (e : Py.exn)
| finished.

Definition exit_code (s : status) : Z :=
  match s with
  | exited c => c
  | traceback _ => 1
  | finished => 0
  end.

(** What a run leaves behind: how it ended, what [print] wrote on the two
    streams (the text of a traceback and the warnings of the libraries are
    not recorded) and the plotting calls made. *)
Record run : Type := {
  ending : status;
  stdout : string;
  stderr : string;
  calls : list plt_call
}.

(** A step of the script either goes on with a value or ends the run. *)
Inductive flow (A : Type) : Type :=
| next (a : A)
| stop (r : run).
Arguments next {A} a.
Arguments stop {A} r.

Definition nl : string := String Grep.LF EmptyString.

(** The handler of [Usage]. *)
Definition usage_exit {A : Type} (msg : string) : flow A :=
  stop {| ending := exited 2;
          stdout := "";
          stderr := nl ++ "ERROR:" ++ "  " ++ msg ++ nl
                    ++ nl ++ "For help, use -h or --help." ++ nl ++ nl;
          calls := [] |}.

Definition uncaught {A : Type} (e : Py.exn) (cs : list plt_call) : flow A :=
  stop {| ending := traceback e; stdout := ""; stderr := ""; calls := cs |}.

(** [float(a)] *)
Definition to_float {A : Type} (E : env) (a : string)
    (k : float -> flow A) : flow A :=
  match float_of_string E a with
  | Some f => k f
  | None => uncaught Py.ValueError []
  end.

(** The loop [for o, a in opts]. *)
Fixpoint read_opts (E : env) (opts : list Getopt.opt) (g : globals)
  : flow globals :=
  match opts with
  | [] => next g
  | (o, a) :: opts' =>
      if String.eqb o "-h" || String.eqb o "--help" then
        stop {| ending := exited 0; stdout := __doc__ ++ nl;
                stderr := ""; calls := [] |}
      else if String.eqb o "-i" then
        read_opts E opts' {| infile := str a; parfile := parfile g;
          cmap := cmap g; cmin := cmin g; cmax := cmax g;
          auto_crange := auto_crange g; cycle := cycle g;
          endian := endian g; pngname := pngname g |}
      else if String.eqb o "-p" then
        read_opts E opts' {| infile := infile g; parfile := str a;
          cmap := cmap g; cmin := cmin g; cmax := cmax g;
          auto_crange := auto_crange g; cycle := cycle g;
          endian := endian g; pngname := pngname g |}
      else if String.eqb o "-c" then
        read_opts E opts' {| infile := infile g; parfile := parfile g;
          cmap := a; cmin := cmin g; cmax := cmax g;
          auto_crange := auto_crange g; cycle := cycle g;
          endian := endian g; pngname := pngname g |}
      else if String.eqb o "--cmin" then
        to_float E a (fun f =>
        read_opts E opts' {| infile := infile g; parfile := parfile g;
          cmap := cmap g; cmin := Some f; cmax := cmax g;
          auto_crange := auto_crange g; cycle := cycle g;
          endian := endian g; pngname := pngname g |})
      else if String.eqb o "--cmax" then
        to_float E a (fun f =>
        read_opts E opts' {| infile := infile g; parfile := parfile g;
          cmap := cmap g; cmin := cmin g; cmax := Some f;
          auto_crange := auto_crange g; cycle := cycle g;
          endian := endian g; pngname := pngname g |})
      else if String.eqb o "--auto_crange" then
        to_float E a (fun f =>
        read_opts E opts' {| infile := infile g; parfile := parfile g;
          cmap := cmap g; cmin := cmin g; cmax := cmax g;
          auto_crange := f; cycle := cycle g;
          endian := endian g; pngname := pngname g |})
      else if String.eqb o "--cycle" then
        to_float E a (fun f =>
        read_opts E opts' {| infile := infile g; parfile := parfile g;
          cmap := cmap g; cmin := cmin g; cmax := cmax g;
          auto_crange := auto_crange g; cycle := f;
          endian := endian g; pngname := pngname g |})
      else if String.eqb o "--bigendian" then
        read_opts E opts' {| infile := infile g; parfile := parfile g;
          cmap := cmap g; cmin := cmin g; cmax := cmax g;
          auto_crange := auto_crange g; cycle := cycle g;
          endian := big; pngname := pngname g |}
      else if String.eqb o "--png" then
        read_opts E opts' {| infile := infile g; parfile := parfile g;
          cmap := cmap g; cmin := cmin g; cmax := cmax g;
          auto_crange := auto_crange g; cycle := cycle g;
          endian := endian g; pngname := str a |}
      else read_opts E opts' g
  end.

Definition shortopts : string := "hi:p:c:".

Definition longopts : list string :=
  ["help"; "cmin="; "cmax="; "auto_crange="; "cycle="; "bigendian"; "png="].

(** The text of a word in a message or as a path. *)
Definition text_of (w : word) : string :=
  match w with
  | empty_list => "[]"
  | str s => s
  end.

(** Read options: the outer [try] block.  [args] is [argv[1:]]. *)
Definition read_options (E : env) (args : list string) : flow globals :=
  match Getopt.getopt args shortopts longopts with
  | Getopt.GetoptError msg => usage_exit msg
  | Getopt.parsed (opts, _) =>
      match read_opts E opts defaults with
      | stop r => stop r
      | next g =>
          if negb (truthy (infile g)) then
            usage_exit "No image file given, -i is not optional!"
          else if negb (path_exists E (text_of (infile g))) then
            usage_exit ("No " ++ text_of (infile g) ++ " exists!")
          else if negb (truthy (parfile g)) then
            usage_exit "No par file given, -p is not optional!"
          else if negb (path_exists E (text_of (parfile g))) then
            usage_exit ("No " ++ text_of (parfile g) ++ " exists!")
          else next g
      end
  end.

(** Set cmap if SCM5.  The result is the value of [cmap] and the calls
    made. *)
Definition set_cmap (E : env) (name : string)
  : flow (colormap * list plt_call) :=
  if Py.startswith name "SCM5" then
    let expr :=
      if Py.endswith name "_r"
      then Py.take (String.length name - 2) name ++ ".reversed()"
      else name in
    if exec_defined E expr then next (cmap_object expr, [])
    else uncaught Py.OtherError []
  else if String.eqb name "insar" then
    match plt_raises E (plt_register_cmap "insar") with
    | Some e => uncaught e [plt_register_cmap "insar"]
    | None => next (cmap_name name, [plt_register_cmap "insar"])
    end
  else next (cmap_name name, []).

(** One field of the parameter file:
    [int(subp.check_output(['grep', key, parfile]).decode().split()[1].strip())] *)
Definition field (key : string) (text : option string) : Py.exc Z :=
  out <- Grep.check_output key text ;;
  tok <- Py.item (Py.split out) 1 ;;
  Py.int (Py.strip tok).

(** Get info: the inner [try], EQA.dem_par first, slc.mli.par in its
    [except]. *)
Definition get_info (text : option string) : Py.exc (Z * Z) :=
  Py.try_except
    (width <- field "width" text ;;
     length <- field "nlines" text ;;
     Py.ok (width, length))
    (width <- field "range_samples" text ;;
     length <- field "azimuth_lines" text ;;
     Py.ok (width, length)).

(** The outer [try] around it; [before] holds the calls made so far. *)
Definition get_info_or_exit (E : env) (parfile : string)
    (before : list plt_call) : flow (Z * Z) :=
  match get_info (read_text E parfile) with
  | Py.ok wl => next wl
  | Py.raise _ =>
      stop {| ending := exited 2;
              stdout := "";
              stderr := "No fields about width/length found in "
                        ++ parfile ++ "!" ++ nl;
              calls := before |}
  end.

(** The [insar] block after the raster is read: the data, [cmin] and
    [cmax] it leaves. *)
Definition insar_block (c : colormap) (cycle : float) (data : list float)
    (cmin cmax : option float)
  : list float * option float * option float :=
  if is_insar c
  then (map (fun v => wrap v cycle) data, Some (Np.neg Np.pi), Some Np.pi)
  else (data, cmin, cmax).

(** Set color range for displacement and vel: [climauto], [cmin] and
    [cmax]. *)
Definition set_color_range (cmin cmax : option float) (auto_crange : float)
    (data : list float) : Py.exc (bool * float * float) :=
  match cmin, cmax with
  | None, None =>
      lo <- Np.nanpercentile data (Np.sub (fin 100) auto_crange) ;;
      hi <- Np.nanpercentile data auto_crange ;;
      Py.ok (true, lo, hi)
  | _, _ =>
      lo <- match cmin with
            | None => Np.nanpercentile data (Np.sub (fin 100) auto_crange)
            | Some lo => Py.ok lo
            end ;;
      hi <- match cmax with
            | None => Np.nanpercentile data auto_crange
            | Some hi => Py.ok hi
            end ;;
      Py.ok (false, lo, hi)
  end.

(** The two blocks together: the data drawn and its colour bounds. *)
Definition resolve (c : colormap) (g : globals) (data : list float)
  : Py.exc (list float * (float * float)) :=
  let '(data, lo, hi) := insar_block c (cycle g) data (cmin g) (cmax g) in
  r <- set_color_range lo hi (auto_crange g) data ;;
  let '(_, lo, hi) := r in
  Py.ok (data, (lo, hi)).

(** The last statement: save or show. *)
Definition save_or_show (pngname : word) : list plt_call * string :=
  if truthy pngname
  then ([plt_savefig (text_of pngname)],
        nl ++ "Output: " ++ text_of pngname ++ nl ++ nl)
  else ([plt_show], "").

(** The calls [todo] one after the other, after the calls [done]: the
    calls made and, when one of them raises, its exception; the calls
    after that one are not made. *)
Fixpoint plt_do (E : env) (todo done : list plt_call)
  : list plt_call * option Py.exn :=
  match todo with
  | [] => (done, None)
  | c :: rest =>
      match plt_raises E c with
      | Some e => ((done ++ [c])%list, Some e)
      | None => plt_do E rest (done ++ [c])%list
      end
  end.

(** Plot figure *)
Definition plot (E : env) (g : globals) (c : colormap) (width length : Z)
    (data : list float) (clim : float * float) (before : list plt_call)
  : run :=
  let figsize_x := if (width <? length)%Z then 6%R else 8%R in
  if (width =? 0)%Z then
    {| ending := traceback Py.ZeroDivisionError;
       stdout := ""; stderr := ""; calls := before |}
  else
    let figsize :=
      (figsize_x, ((figsize_x - 2) * IZR length / IZR width)%R) in
    let '(last, out) := save_or_show (pngname g) in
    match plt_do E ([plt_figure (text_of (infile g)) figsize;
                     plt_imshow data clim c]
                    ++ (if is_insar c then [] else [plt_colorbar])
                    ++ [plt_tight_layout]
                    ++ last)%list before with
    | (made, Some e) =>
        {| ending := traceback e; stdout := ""; stderr := "";
           calls := made |}
    | (made, None) =>
        {| ending := finished; stdout := out; stderr := "";
           calls := made |}
    end.

(** The script, from the words after the program name. *)
Definition main (E : env) (args : list string) : run :=
  match read_options E args with
  | stop r => r
  | next g =>
  match set_cmap E (cmap g) with
  | stop r => r
  | next (c, registered) =>
  match get_info_or_exit E (text_of (parfile g)) registered with
  | stop r => r
  | next (width, length) =>
  match read_img E (text_of (infile g)) length width (endian g) with
  | Py.raise e =>
      {| ending := traceback e; stdout := ""; stderr := "";
         calls := registered |}
  | Py.ok data =>
  match resolve c g data with
  | Py.raise e =>
      {| ending := traceback e; stdout := ""; stderr := "";
         calls := registered |}
  | Py.ok (data, clim) => plot E g c width length data clim registered
  end end end end end.

(** ** The extraction as the specification words it

    A line is matched when its first white-space-separated token equals
    the key, its second token is the value, and the second pair of keys is
    tried only when the first pair is absent. *)

Definition first_token_is (key line : string) : bool :=
  match Py.split line with
  | t :: _ => String.eqb t key
  | [] => false
  end.

Definition spec_line (key text : string) : option string :=
  find (first_token_is key) (Grep.lines text).

Definition spec_value (line : string) : Py.exc Z :=
  tok <- Py.item (Py.split line) 1 ;;
  Py.int tok.

Definition spec_get_info (text : string) : Py.exc (Z * Z) :=
  match spec_line "width" text, spec_line "nlines" text with
  | Some lw, Some ll =>
      width <- spec_value lw ;; length <- spec_value ll ;;
      Py.ok (width, length)
  | _, _ =>
      match spec_line "range_samples" text,
            spec_line "azimuth_lines" text with
      | Some lw, Some ll =>
          width <- spec_value lw ;; length <- spec_value ll ;;
          Py.ok (width, length)
      | _, _ => Py.raise Py.ValueError
      end
  end.

(** The second token of the lines that [grep] selects for a key, taken
    together in the order of the file. *)
Definition second_token (key text : string) : option string :=
  nth_error (flat_map Py.split (Grep.selected key text)) 1.

(** The value the option loop leaves in a variable that the option [o]
    sets: the argument of the last [o] among the options, or the value [w]
    the variable had. *)
Definition supplied (o : string) (opts : list Getopt.opt) (w : word) : word :=
  fold_left (fun acc oa => if String.eqb (fst oa) o then str (snd oa) else acc)
            opts w.

(** A word that ends the options: one that does not start with a dash, or
    the dash alone. *)
Definition plain_word (w : string) : bool :=
  negb (Py.startswith w "-") || String.eqb w "-".

(** The options that take a number. *)
Definition numeric_options : list string :=
  ["--cmin"; "--cmax"; "--auto_crange"; "--cycle"].

(** ** A small world to run the script in

    A raster [a.bin] of one row and two columns, a parameter file [a.par]
    with the given content, a float parser that knows the few numerals
    used below, and a plotting library in which no call raises. *)

Definition world (par : string) : env := {|
  path_exists := fun p => String.eqb p "a.bin" || String.eqb p "a.par";
  read_text := fun p => if String.eqb p "a.par" then Some par else None;
  float_of_string := fun a =>
    if String.eqb a "-1" then Some (fin (-1))
    else if String.eqb a "0" then Some (fin 0)
    else if String.eqb a "1" then Some (fin 1)
    else if String.eqb a "10" then Some (fin 10)
    else if String.eqb a "nan" then Some nan
    else None;
  read_img := fun p length width e =>
    if String.eqb p "a.bin" then Py.ok [fin 0; fin 1]
    else Py.raise Py.OtherError;
  exec_defined := fun e => String.eqb e "SCM5.roma.reversed()";
  plt_raises := fun c => None
|}.

(** The same world with a plotting library that cannot write the figure:
    [savefig] raises. *)
Definition read_only_world (par : string) : env := {|
  path_exists := path_exists (world par);
  read_text := read_text (world par);
  float_of_string := float_of_string (world par);
  read_img := read_img (world par);
  exec_defined := exec_defined (world par);
  plt_raises := fun c =>
    match c with
    | plt_savefig _ => Some Py.OtherError
    | _ => None
    end
|}.

(** Parameter files: in the style of EQA.dem_par, with both pairs of
    keys, and with none. *)
Definition eqa_par : string := "width: 2" ++ nl ++ "nlines: 1" ++ nl.

Definition both_par : string :=
  "width: 2" ++ nl ++ "nlines: 1" ++ nl
  ++ "range_samples: 7" ++ nl ++ "azimuth_lines: 9" ++ nl.

Definition foo_par : string := "foo 1" ++ nl.

(** A parameter file that declares a raster without columns. *)
Definition zero_par : string := "width: 0" ++ nl ++ "nlines: 1" ++ nl.

Definition demo_env : env := world eqa_par.

Local Close Scope string_scope.

(** ** Auxiliary notions for the proofs *)

(** The interpolation of [Np.quantile], on the sorted values [s] at the
    fractional rank [x]. *)
Definition at_rank (s : list R) (x : R) : R :=
  nth (Np.floor x) s 0 * (1 - (x - INR (Np.floor x)))
  + nth (Nat.min (Np.floor x + 1) (List.length s - 1)) s 0
    * (x - INR (Np.floor x)).

(** No white space in a token. *)
Definition solid (t : string) : Prop :=
  forallb (fun c => negb (Py.isspace c)) (list_ascii_of_string t) = true.

(** ** Phase wrap: lemmas *)

Section PhaseWrap.

Lemma arctan2_range (y x : R) : - PI < Np.arctan2 y x <= PI.
Proof.
  pose proof PI_RGT_0 as Hpi.
  unfold Np.arctan2.
  destruct (Rlt_dec 0 x) as [Hx | Hx].
  - pose proof (atan_bound (y / x)). lra.
  - destruct (Rlt_dec x 0) as [Hx' | Hx'].
    + pose proof (atan_bound (y / x)) as Hb.
      destruct (Rle_dec 0 y) as [Hy | Hy].
      * assert (y / x <= 0) as Hq.
        { unfold Rdiv. assert (/ x < 0) by now apply Rinv_lt_0_compat. nra. }
        assert (atan (y / x) <= 0) as Ha.
        { destruct Hq as [Hq | Hq].
          - left. rewrite <- atan_0. now apply atan_increasing.
          - rewrite Hq, atan_0. lra. }
        lra.
      * assert (0 < y / x) as Hq.
        { unfold Rdiv. assert (/ x < 0) by now apply Rinv_lt_0_compat. nra. }
        assert (0 < atan (y / x)) as Ha.
        { rewrite <- atan_0. now apply atan_increasing. }
        lra.
    + destruct (Rlt_dec 0 y); [lra |].
      destruct (Rlt_dec y 0); lra.
Qed.

(** A positive factor common to both coordinates does not move the angle. *)
Lemma arctan2_scale (c y x : R) :
  0 < c -> Np.arctan2 (y * c) (x * c) = Np.arctan2 y x.
Proof.
  intros Hc. unfold Np.arctan2.
  assert ((y * c) / (x * c) = y / x) as Hq.
  { destruct (Req_dec x 0) as [-> | Hx].
    - rewrite Rmult_0_l. now rewrite !Rdiv_0_r.
    - field. lra. }
  rewrite Hq.
  destruct (Rlt_dec 0 x), (Rlt_dec 0 (x * c)); try nra.
  destruct (Rlt_dec x 0), (Rlt_dec (x * c) 0); try nra.
  - destruct (Rle_dec 0 y), (Rle_dec 0 (y * c)); nra.
  - destruct (Rlt_dec 0 y), (Rlt_dec 0 (y * c)); try nra.
    destruct (Rlt_dec y 0), (Rlt_dec (y * c) 0); nra.
Qed.

(** What the code computes, with the complex arithmetic carried out. *)
Lemma wrap_real_unfold (v c : R) :
  wrap_real v c = Np.arctan2 (sin (v / c) * c) (cos (v / c) * c).
Proof.
  unfold wrap_real, Np.angle, Np.mul, Np.cexp, Np.j, Np.of_real, Np.re, Np.im.
  cbn [fst snd].
  f_equal.
  - replace (0 * (v / c) - 1 * 0) with 0 by ring.
    replace (0 * 0 + 1 * (v / c)) with (v / c) by ring.
    rewrite exp_0. ring.
  - replace (0 * (v / c) - 1 * 0) with 0 by ring.
    replace (0 * 0 + 1 * (v / c)) with (v / c) by ring.
    rewrite exp_0. ring.
Qed.

Lemma wrap_real_angle (v c : R) :
  0 < c -> wrap_real v c = Np.arctan2 (sin (v / c)) (cos (v / c)).
Proof.
  intros Hc. rewrite wrap_real_unfold. now apply arctan2_scale.
Qed.

Lemma arctan2_pos (y x : R) : 0 < x -> Np.arctan2 y x = atan (y / x).
Proof.
  intros Hx. unfold Np.arctan2. destruct (Rlt_dec 0 x); [reflexivity | lra].
Qed.

Lemma arctan2_neg_up (y x : R) :
  x < 0 -> 0 <= y -> Np.arctan2 y x = atan (y / x) + PI.
Proof.
  intros Hx Hy. unfold Np.arctan2.
  destruct (Rlt_dec 0 x); [lra |].
  destruct (Rlt_dec x 0); [| lra].
  destruct (Rle_dec 0 y); [reflexivity | lra].
Qed.

Lemma arctan2_neg_down (y x : R) :
  x < 0 -> y < 0 -> Np.arctan2 y x = atan (y / x) - PI.
Proof.
  intros Hx Hy. unfold Np.arctan2.
  destruct (Rlt_dec 0 x); [lra |].
  destruct (Rlt_dec x 0); [| lra].
  destruct (Rle_dec 0 y); [lra | reflexivity].
Qed.

(** Half a turn away, the tangent is the same. *)
Lemma ratio_shift (t s : R) :
  (s = PI \/ s = - PI) -> cos t <> 0 ->
  sin (t + s) / cos (t + s) = tan t.
Proof.
  intros Hs Hc. unfold tan.
  assert (sin (t + s) = - sin t /\ cos (t + s) = - cos t) as [-> ->].
  { destruct Hs as [-> | ->].
    - now rewrite neg_sin, neg_cos.
    - replace (t + - PI) with (- (- t + PI)) by ring.
      rewrite sin_neg, cos_neg, neg_sin, neg_cos, sin_neg, cos_neg.
      split; ring. }
  field. exact Hc.
Qed.

(** On (-PI, PI] the angle of the point (cos t, sin t) is [t]. *)
Lemma arctan2_sin_cos (t : R) :
  - PI < t <= PI -> Np.arctan2 (sin t) (cos t) = t.
Proof.
  intros [Hlo Hhi]. pose proof PI_RGT_0 as Hpi.
  destruct (Rlt_dec t (- (PI / 2))) as [H1 | H1].
  - (* third quadrant *)
    assert (0 < cos (t + PI)) as Hc by (apply cos_gt_0; lra).
    assert (cos t < 0) as Hct by (rewrite neg_cos in Hc; lra).
    assert (sin t < 0) as Hst by (apply sin_lt_0_var; lra).
    rewrite arctan2_neg_down by assumption.
    replace t with ((t + PI) + - PI) at 1 2 by ring.
    rewrite ratio_shift by (auto; lra).
    rewrite atan_tan by lra. ring.
  - destruct (Req_dec t (- (PI / 2))) as [-> | H2].
    + rewrite sin_neg, cos_neg, sin_PI2, cos_PI2. unfold Np.arctan2.
      destruct (Rlt_dec 0 0); [lra |].
      destruct (Rlt_dec 0 (- (1))); [lra |].
      destruct (Rlt_dec (- (1)) 0); [reflexivity | lra].
    + destruct (Rlt_dec t (PI / 2)) as [H3 | H3].
      * assert (0 < cos t) as Hc by (apply cos_gt_0; lra).
        rewrite arctan2_pos by assumption.
        change (sin t / cos t) with (tan t).
        apply atan_tan. lra.
      * destruct (Req_dec t (PI / 2)) as [-> | H4].
        -- rewrite sin_PI2, cos_PI2. unfold Np.arctan2.
           destruct (Rlt_dec 0 0); [lra |].
           destruct (Rlt_dec 0 1); [reflexivity | lra].
        -- assert (0 < cos (t + - PI)) as Hc by (apply cos_gt_0; lra).
           assert (cos t < 0) as Hct.
           { replace t with ((t + - PI) + PI) by ring.
             rewrite neg_cos. lra. }
           assert (0 <= sin t) as Hst by (apply sin_ge_0; lra).
           rewrite arctan2_neg_up by assumption.
           replace t with ((t + - PI) + PI) at 1 2 by ring.
           rewrite ratio_shift by (auto; lra).
           rewrite atan_tan by lra. ring.
Qed.

End PhaseWrap.

(** ** Phase wrap: what the transform computes *)

(** C2, as stated, fails: at the sample 3 with the default cycle 3 the
    code yields the angle 1, while the wrapped angle rescaled by the cycle
    would be 3. *)
Lemma wrap_not_rescaled :
  wrap (fin 3) (fin 3) = fin 1 /\
  wrap_spec 3 3 = 3 /\
  wrap (fin 3) (fin 3) <> fin (wrap_spec 3 3).
Proof.
  pose proof PI2_1 as H1. pose proof PI_RGT_0 as Hpi.
  assert (Np.arctan2 (sin (3 / 3)) (cos (3 / 3)) = 1) as Ha.
  { replace (3 / 3) with 1 by field. apply arctan2_sin_cos. lra. }
  assert (wrap (fin 3) (fin 3) = fin 1) as Hw.
  { unfold wrap. destruct (Req_dec_T 3 0) as [H0 | _]; [lra |].
    rewrite wrap_real_angle by lra. now rewrite Ha. }
  assert (wrap_spec 3 3 = 3) as Hs.
  { unfold wrap_spec. rewrite Ha. ring. }
  repeat split; try assumption.
  rewrite Hw, Hs. intros H. injection H as H. lra.
Qed.

(** C2, amended: for a cycle [c] other than zero the transform yields
    [atan2 (c * sin (v / c)) (c * cos (v / c))], the angle of
    [c * exp (i * (v / c))]; for a positive [c] this is
    [atan2 (sin (v / c)) (cos (v / c))], the angle [v / c] wrapped into
    (-PI, PI], and it is not multiplied by [c]: an angle [v / c] that is
    already in (-PI, PI] is returned as it is. *)
Theorem wrap_is_wrapped_angle (v c : R) :
  c <> 0 ->
  wrap (fin v) (fin c)
  = fin (Np.arctan2 (sin (v / c) * c) (cos (v / c) * c)) /\
  (0 < c ->
   wrap (fin v) (fin c) = fin (Np.arctan2 (sin (v / c)) (cos (v / c))) /\
   (- PI < v / c <= PI -> wrap (fin v) (fin c) = fin (v / c))).
Proof.
  intros Hc.
  assert (wrap (fin v) (fin c) = fin (wrap_real v c)) as Hw.
  { unfold wrap. destruct (Req_dec_T c 0); [contradiction | reflexivity]. }
  rewrite Hw. split.
  - now rewrite wrap_real_unfold.
  - intros Hpos. rewrite wrap_real_angle by assumption.
    split; [reflexivity |].
    intros Hr. f_equal. now apply arctan2_sin_cos.
Qed.

Lemma wrap_is_wrapped_angle_witness :
  3 <> 0 /\
  wrap (fin 3) (fin 3)
  = fin (Np.arctan2 (sin (3 / 3) * 3) (cos (3 / 3) * 3)).
Proof.
  assert (3 <> 0) as H by lra.
  split; [exact H |]. exact (proj1 (wrap_is_wrapped_angle 3 3 H)).
Defined.

(** C9: for a finite sample [v] and a positive cycle [c] the value the
    transform produces lies in (-PI, PI], whatever [c] is: it is the angle
    of [exp (i * (v / c))] itself, the factor [c] having no effect. *)
Theorem wrap_range (v c : R) :
  0 < c ->
  exists w : R,
    wrap (fin v) (fin c) = fin w /\
    - PI < w <= PI /\
    w = Np.angle (Np.cexp (Np.mul Np.j (Np.of_real (v / c)))).
Proof.
  intros Hc. exists (wrap_real v c). split; [| split].
  - unfold wrap. destruct (Req_dec_T c 0) as [H0 | _]; [lra | reflexivity].
  - rewrite wrap_real_unfold. apply arctan2_range.
  - rewrite wrap_real_angle by assumption.
    unfold Np.angle, Np.mul, Np.cexp, Np.j, Np.of_real, Np.re, Np.im.
    cbn [fst snd].
    replace (0 * (v / c) - 1 * 0) with 0 by ring.
    replace (0 * 0 + 1 * (v / c)) with (v / c) by ring.
    rewrite exp_0. now rewrite !Rmult_1_l.
Qed.

Lemma wrap_range_witness :
  0 < 3 /\ exists w : R, wrap (fin 10) (fin 3) = fin w /\ - PI < w <= PI.
Proof.
  split; [lra |].
  destruct (wrap_range 10 3) as (w & Hw & Hr & _); [lra |].
  exists w. split; assumption.
Defined.

(** ** The run as a whole: where the drawing calls come from *)

Ltac break_if :=
  match goal with
  | |- context [if ?b then _ else _] => destruct b eqn:?
  | H : context [if ?b then _ else _] |- _ => destruct b eqn:?
  end.

Lemma read_opts_stop (E : env) (opts : list Getopt.opt) (g : globals)
    (r : run) :
  read_opts E opts g = stop r -> calls r = [].
Proof.
  revert g. induction opts as [| [o a] opts IH]; intros g H.
  - discriminate.
  - cbn [read_opts] in H. unfold to_float, uncaught in H.
    repeat break_if;
      try (injection H as <-; reflexivity);
      try (eapply IH; eassumption);
      destruct (float_of_string E a);
      try (injection H as <-; reflexivity);
      eapply IH; eassumption.
Qed.

Lemma read_options_stop (E : env) (args : list string) (r : run) :
  read_options E args = stop r -> calls r = [].
Proof.
  unfold read_options, usage_exit. intros H.
  destruct (Getopt.getopt args shortopts longopts) as [[opts rest] | msg].
  - destruct (read_opts E opts defaults) as [g | r'] eqn:Hr.
    + repeat break_if; try discriminate; injection H as <-; reflexivity.
    + injection H as <-. eapply read_opts_stop; eassumption.
  - injection H as <-. reflexivity.
Qed.

(** When setting the colormap ends the run, nothing was drawn: the only
    call that can have been made is the registration. *)
Lemma set_cmap_stop (E : env) (name : string) (r : run) :
  set_cmap E name = stop r ->
  (forall x, In x (calls r) -> x = plt_register_cmap "insar") /\
  exists e, ending r = traceback e.
Proof.
  unfold set_cmap, uncaught. intros H.
  destruct (Py.startswith name "SCM5").
  - destruct (exec_defined E _); [discriminate |].
    injection H as <-. cbn. split; [intros x [] | eauto].
  - destruct (String.eqb name "insar"); [| discriminate].
    destruct (plt_raises E (plt_register_cmap "insar")) as [e |];
      [| discriminate].
    injection H as <-. cbn. split; [| eauto].
    intros x [<- | []]. reflexivity.
Qed.

(** Setting the colormap draws nothing, and leaves the name [insar] in
    [cmap] exactly when that was the name given. *)
Lemma set_cmap_next (E : env) (name : string) (c : colormap)
    (cs : list plt_call) :
  set_cmap E name = next (c, cs) ->
  (forall d clim c', ~ In (plt_imshow d clim c') cs) /\
  (forall f, ~ In (plt_savefig f) cs) /\
  ~ In plt_show cs /\
  (is_insar c = true <-> name = "insar"%string).
Proof.
  unfold set_cmap, uncaught. intros H.
  destruct (Py.startswith name "SCM5") eqn:Hs.
  - destruct (exec_defined E _); [| discriminate].
    injection H as <- <-. cbn. repeat split; try tauto; try discriminate.
    intros ->. discriminate.
  - destruct (String.eqb name "insar") eqn:Hi.
    + destruct (plt_raises E (plt_register_cmap "insar")); [discriminate |].
      injection H as <- <-. apply String.eqb_eq in Hi. subst name.
      cbn. repeat split; try tauto; try discriminate;
        intros; intros [? | []]; discriminate.
    + injection H as <- <-. cbn. rewrite Hi.
      apply String.eqb_neq in Hi.
      repeat split; try tauto; try discriminate.
Qed.

Lemma get_info_or_exit_stop (E : env) (p : string) (before : list plt_call)
    (r : run) :
  get_info_or_exit E p before = stop r ->
  calls r = before /\ ending r = exited 2.
Proof.
  unfold get_info_or_exit. intros H.
  destruct (get_info (read_text E p)); [discriminate |].
  injection H as <-. split; reflexivity.
Qed.

(** The calls made by a sequence of calls: those made before, then the
    sequence up to the call that raises, or the whole of it. *)
Lemma plt_do_made (E : env) (todo done made : list plt_call)
    (r : option Py.exn) :
  plt_do E todo done = (made, r) ->
  match r with
  | None => made = done ++ todo /\ forall c, In c todo -> plt_raises E c = None
  | Some e =>
      exists pre c post,
        todo = pre ++ c :: post /\ made = done ++ pre ++ [c] /\
        plt_raises E c = Some e /\
        forall c', In c' pre -> plt_raises E c' = None
  end.
Proof.
  revert done. induction todo as [| c todo IH]; intros done H.
  - injection H as <- <-. split; [now rewrite app_nil_r | intros c []].
  - cbn [plt_do] in H. destruct (plt_raises E c) as [e |] eqn:Hc.
    + injection H as <- <-. exists [], c, todo. cbn.
      repeat split; try assumption. intros c' [].
    + specialize (IH _ H). destruct r as [e |].
      * destruct IH as (pre & c0 & post & -> & -> & Hr & Hpre).
        exists (c :: pre), c0, post. cbn. rewrite <- !app_assoc. cbn.
        repeat split; try assumption.
        intros c' [<- | Hc']; [assumption | now apply Hpre].
      * destruct IH as [-> Hall]. rewrite <- app_assoc. cbn.
        split; [reflexivity |].
        intros c' [<- | Hc']; [assumption | now apply Hall].
Qed.

Lemma plt_do_In (E : env) (todo done made : list plt_call)
    (r : option Py.exn) (x : plt_call) :
  plt_do E todo done = (made, r) -> In x made -> In x done \/ In x todo.
Proof.
  intros H Hx. apply plt_do_made in H. destruct r as [e |].
  - destruct H as (pre & c & post & -> & -> & _).
    rewrite !in_app_iff in *. cbn in *. tauto.
  - destruct H as [-> _]. now apply in_app_or.
Qed.

(** The calls of the plot block, as a list. *)
Lemma plot_calls_In (E : env) (g : globals) (c : colormap) (w l : Z)
    (d : list float) (clim : float * float) (cs : list plt_call)
    (x : plt_call) :
  In x (calls (plot E g c w l d clim cs)) ->
  In x cs \/
  (exists n sz, x = plt_figure n sz) \/
  x = plt_imshow d clim c \/
  x = plt_colorbar \/ x = plt_tight_layout \/
  In x (fst (save_or_show (pngname g))).
Proof.
  unfold plot. destruct (w =? 0)%Z; [cbn; tauto |].
  destruct (save_or_show (pngname g)) as [last out]. cbn [fst].
  match goal with
  | |- context [plt_do E ?t cs] =>
      destruct (plt_do E t cs) as [made r] eqn:Hdo
  end.
  intros Hx.
  assert (In x made) as Hm by (destruct r; exact Hx).
  destruct (plt_do_In _ _ _ _ _ _ Hdo Hm) as [H | H]; [now left |].
  right. cbn in H. destruct H as [<- | [<- | H]]; [eauto | tauto |].
  apply in_app_or in H. destruct H as [H | H].
  - destruct (is_insar c); cbn in H; [destruct H |].
    destruct H as [<- | []]. tauto.
  - cbn in H. destruct H as [<- | H]; tauto.
Qed.

(** Every image the script draws was resolved by [resolve] from the
    globals the options set. *)
Lemma main_imshow (E : env) (args : list string) (d : list float)
    (clim : float * float) (c : colormap) :
  In (plt_imshow d clim c) (calls (main E args)) ->
  exists g data cs,
    read_options E args = next g /\
    set_cmap E (cmap g) = next (c, cs) /\
    resolve c g data = Py.ok (d, clim).
Proof.
  unfold main. intros H.
  destruct (read_options E args) as [g | r] eqn:Hro.
  2:{ rewrite (read_options_stop _ _ _ Hro) in H. destruct H. }
  destruct (set_cmap E (cmap g)) as [[c0 cs] | r] eqn:Hc.
  2:{ apply (proj1 (set_cmap_stop _ _ _ Hc)) in H. discriminate. }
  destruct (set_cmap_next _ _ _ _ Hc) as (Hcs & _).
  destruct (get_info_or_exit E (text_of (parfile g)) cs)
    as [[w l] | r] eqn:Hg.
  2:{ rewrite (proj1 (get_info_or_exit_stop _ _ _ _ Hg)) in H.
      now apply Hcs in H. }
  destruct (read_img E (text_of (infile g)) l w (endian g)) as [data | e].
  2:{ cbn in H. now apply Hcs in H. }
  destruct (resolve c0 g data) as [[d0 clim0] | e] eqn:Hres.
  2:{ cbn in H. now apply Hcs in H. }
  apply plot_calls_In in H.
  destruct H as [H | [(n & sz & H) | [H | [H | [H | H]]]]];
    try discriminate.
  - now apply Hcs in H.
  - injection H as <- <- <-. exists g, data, cs. auto.
  - unfold save_or_show in H. destruct (truthy (pngname g));
      cbn in H; destruct H as [H | []]; discriminate.
Qed.

(** ** Colour bounds *)

Lemma resolve_insar (c : colormap) (g : globals) (data : list float) :
  is_insar c = true ->
  resolve c g data
  = Py.ok (map (fun v => wrap v (cycle g)) data, (fin (- PI), fin PI)).
Proof.
  intros Hc. unfold resolve, insar_block. rewrite Hc. reflexivity.
Qed.

(** C1: in every run that draws with the colormap name [insar], the
    colour bounds handed to the drawing call are exactly [-PI] and [PI],
    whatever [--cmin], [--cmax] and [--auto_crange] were given and whatever
    the data are; no percentile enters them. *)
Theorem insar_bounds_forced (E : env) (args : list string)
    (d : list float) (clim : float * float) (c : colormap) :
  In (plt_imshow d clim c) (calls (main E args)) ->
  is_insar c = true ->
  clim = (fin (- PI), fin PI).
Proof.
  intros H Hc.
  destruct (main_imshow _ _ _ _ _ H) as (g & data & cs & _ & _ & Hres).
  rewrite (resolve_insar _ _ _ Hc) in Hres. now injection Hres as _ <-.
Qed.

Lemma insar_bounds_forced_witness :
  exists d clim,
    In (plt_imshow d clim (cmap_name "insar"))
       (calls (main demo_env
                 ["-i"; "a.bin"; "-p"; "a.par"; "-c"; "insar";
                  "--cmin"; "-1"; "--cmax"; "10"]%string)) /\
    clim = (fin (- PI), fin PI).
Proof.
  eexists. eexists.
  assert (In (plt_imshow (map (fun v => wrap v (fin 3)) [fin 0; fin 1])
                         (fin (- PI), fin PI) (cmap_name "insar"))
             (calls (main demo_env
                 ["-i"; "a.bin"; "-p"; "a.par"; "-c"; "insar";
                  "--cmin"; "-1"; "--cmax"; "10"]%string))) as H.
  { cbv -[wrap PI Ropp IZR Rmult Rdiv Rminus]. tauto. }
  split; [exact H |].
  exact (insar_bounds_forced _ _ _ _ _ H eq_refl).
Defined.


(** ** Percentiles *)

Section Percentile.

Import Np.

Lemma Rleb_true (x y : R) : Rleb x y = true <-> x <= y.
Proof. unfold Rleb. destruct (Rle_dec x y); split; auto; discriminate. Qed.

Lemma Rleb_false (x y : R) : Rleb x y = false <-> y < x.
Proof.
  unfold Rleb. destruct (Rle_dec x y); split; intros; try discriminate;
    try lra; reflexivity.
Qed.

Lemma insert_perm (x : R) (l : list R) : Permutation (x :: l) (insert x l).
Proof.
  induction l as [| y t IH]; cbn.
  - reflexivity.
  - destruct (Rleb x y); [reflexivity |].
    rewrite perm_swap. now apply perm_skip.
Qed.

Lemma sort_perm (l : list R) : Permutation l (sort l).
Proof.
  induction l as [| x t IH]; cbn.
  - constructor.
  - rewrite <- insert_perm. now apply perm_skip.
Qed.

Lemma sort_length (l : list R) : List.length (sort l) = List.length l.
Proof. symmetry. apply Permutation_length, sort_perm. Qed.

Lemma insert_sorted (x : R) (l : list R) :
  StronglySorted Rle l -> StronglySorted Rle (insert x l).
Proof.
  induction 1 as [| y t Ht IH Hy]; cbn.
  - repeat constructor.
  - destruct (Rleb x y) eqn:Hxy.
    + apply Rleb_true in Hxy. constructor.
      * now constructor.
      * constructor; [assumption |].
        eapply Forall_impl; [| exact Hy]. cbn. intros; lra.
    + apply Rleb_false in Hxy. constructor; [assumption |].
      rewrite <- insert_perm. constructor; [lra | assumption].
Qed.

Lemma sort_sorted (l : list R) : StronglySorted Rle (sort l).
Proof.
  induction l as [| x t IH]; cbn; [constructor | now apply insert_sorted].
Qed.

(** In a sorted list a later rank holds a larger value. *)
Lemma sorted_nth (l : list R) :
  StronglySorted Rle l ->
  forall i k : nat, (i <= k)%nat -> (k < List.length l)%nat ->
  nth i l 0 <= nth k l 0.
Proof.
  induction 1 as [| y t Ht IH Hy]; intros i k Hik Hk.
  - cbn in Hk. lia.
  - destruct i as [| i], k as [| k]; cbn in *; try lia.
    + lra.
    + rewrite Forall_forall in Hy. apply Hy, nth_In. lia.
    + apply IH; lia.
Qed.

Lemma floor_spec (r : R) :
  0 <= r -> INR (floor r) <= r < INR (floor r) + 1.
Proof.
  intros Hr. unfold floor.
  destruct (base_Int_part r) as [H1 H2].
  assert (0 <= Int_part r)%Z as Hz.
  { assert (-1 < Int_part r)%Z; [| lia]. apply lt_IZR. lra. }
  rewrite INR_IZR_INZ, Z2Nat.id by assumption. lra.
Qed.

Lemma floor_unique (r : R) (n : nat) : INR n <= r < INR n + 1 -> floor r = n.
Proof.
  intros H. unfold floor.
  rewrite <- (Int_part_spec r (Z.of_nat n)).
  - apply Nat2Z.id.
  - rewrite <- INR_IZR_INZ. lra.
Qed.

Lemma floor_mono (r s : R) : 0 <= r <= s -> (floor r <= floor s)%nat.
Proof.
  intros H.
  pose proof (floor_spec r ltac:(lra)). pose proof (floor_spec s ltac:(lra)).
  assert (floor r < floor s + 1)%nat; [| lia].
  apply INR_lt. rewrite plus_INR. cbn. lra.
Qed.

Lemma quantile_at_rank (a : list R) (q : R) :
  quantile a q = at_rank (sort a) (q * INR (List.length a - 1)).
Proof. unfold quantile, at_rank. now rewrite sort_length. Qed.

Section Sorted.

Variable s : list R.
Hypothesis s_sorted : StronglySorted Rle s.
Hypothesis s_inhabited : (0 < List.length s)%nat.

Let top : nat := (List.length s - 1)%nat.

Lemma floor_in_range (x : R) : 0 <= x <= INR top -> (floor x <= top)%nat.
Proof.
  intros H. pose proof (floor_spec x ltac:(lra)).
  assert (floor x < top + 1)%nat; [| lia].
  apply INR_lt. rewrite plus_INR. cbn. lra.
Qed.

(** The interpolated value lies between its two neighbours. *)
Lemma at_rank_between (x : R) :
  0 <= x <= INR top ->
  nth (floor x) s 0 <= at_rank s x <= nth (Nat.min (floor x + 1) top) s 0.
Proof.
  intros H. pose proof (floor_spec x ltac:(lra)) as Hf.
  pose proof (floor_in_range x H) as Hr.
  assert (nth (floor x) s 0 <= nth (Nat.min (floor x + 1) top) s 0) as Hn.
  { apply sorted_nth; [assumption | | ]; subst top; lia. }
  unfold at_rank. fold top. nra.
Qed.

Lemma at_rank_mono (x y : R) :
  0 <= x -> x <= y -> y <= INR top -> at_rank s x <= at_rank s y.
Proof.
  intros H0 Hxy Hy.
  pose proof (floor_mono x y ltac:(lra)) as Hm.
  pose proof (floor_in_range y ltac:(lra)) as Hry.
  destruct (Nat.eq_dec (floor x) (floor y)) as [He | Hne].
  - pose proof (floor_spec x ltac:(lra)) as Hfx.
    assert (nth (floor y) s 0 <= nth (Nat.min (floor y + 1) top) s 0) as Hn.
    { apply sorted_nth; [assumption | | ]; subst top; lia. }
    unfold at_rank. fold top. rewrite He in *. nra.
  - destruct (at_rank_between x ltac:(lra)) as [_ Hx].
    destruct (at_rank_between y ltac:(lra)) as [Hy' _].
    assert (nth (Nat.min (floor x + 1) top) s 0 <= nth (floor y) s 0).
    { apply sorted_nth; [assumption | | ]; subst top; lia. }
    lra.
Qed.

Lemma at_rank_bounded (m M x : R) :
  (forall v, In v s -> m <= v <= M) ->
  0 <= x <= INR top -> m <= at_rank s x <= M.
Proof.
  intros Hb H.
  destruct (at_rank_between x H) as [Hlo Hhi].
  pose proof (floor_in_range x H) as Hr.
  assert (In (nth (floor x) s 0) s) as I1 by (apply nth_In; subst top; lia).
  assert (In (nth (Nat.min (floor x + 1) top) s 0) s) as I2
    by (apply nth_In; subst top; lia).
  apply Hb in I1, I2. lra.
Qed.

End Sorted.

Lemma rank_in_range (n : nat) (q : R) :
  0 <= q <= 1 -> 0 <= q * INR (n - 1) <= INR (n - 1).
Proof. intros H. pose proof (pos_INR (n - 1)). nra. Qed.

Lemma quantile_mono (a : list R) (q1 q2 : R) :
  a <> [] -> 0 <= q1 -> q1 <= q2 -> q2 <= 1 ->
  quantile a q1 <= quantile a q2.
Proof.
  intros Ha H0 H12 H1. rewrite !quantile_at_rank.
  pose proof (pos_INR (List.length a - 1)) as Hn.
  apply at_rank_mono.
  - apply sort_sorted.
  - rewrite sort_length. destruct a; [congruence | cbn; lia].
  - nra.
  - nra.
  - rewrite sort_length. nra.
Qed.

Lemma quantile_bounded (a : list R) (m M q : R) :
  a <> [] -> (forall v, In v a -> m <= v <= M) -> 0 <= q <= 1 ->
  m <= quantile a q <= M.
Proof.
  intros Ha Hb Hq. rewrite quantile_at_rank.
  apply at_rank_bounded.
  - apply sort_sorted.
  - rewrite sort_length. destruct a; [congruence | cbn; lia].
  - intros v Hv. apply Hb. eapply Permutation_in; [| exact Hv].
    symmetry. apply sort_perm.
  - rewrite sort_length. now apply rank_in_range.
Qed.

End Percentile.

(** ** Colour range from percentiles *)

Section ColourRange.

Import Np.

Lemma remove_nan_In (a : list float) (x : R) :
  In x (remove_nan a) <-> In (fin x) a.
Proof.
  induction a as [| [| y] t IH]; cbn.
  - tauto.
  - rewrite IH. split; [auto | intros [H | H]; [discriminate | assumption]].
  - rewrite IH. split; intros [H | H]; auto.
    + left. now f_equal.
    + left. now injection H.
Qed.

Lemma remove_nan_filter (a : list float) :
  remove_nan (filter (fun f => negb (is_nan f)) a) = remove_nan a.
Proof.
  induction a as [| [| y] t IH]; cbn; [reflexivity | assumption |].
  now rewrite IH.
Qed.

(** NaN entries do not count. *)
Lemma nanpercentile_ignores_nan (a : list float) (q : float) :
  nanpercentile (filter (fun f => negb (is_nan f)) a) q = nanpercentile a q.
Proof. unfold nanpercentile. now rewrite remove_nan_filter. Qed.

Lemma fold_min_init (t : list R) (x : R) : fold_left Rmin t x <= x.
Proof.
  revert x. induction t as [| y t IH]; intros x; cbn.
  - lra.
  - eapply Rle_trans; [apply IH | apply Rmin_l].
Qed.

Lemma fold_min_le (t : list R) (x v : R) :
  In v (x :: t) -> fold_left Rmin t x <= v.
Proof.
  revert x. induction t as [| y t IH]; intros x H.
  - destruct H as [-> | []]. cbn. lra.
  - cbn [fold_left]. destruct H as [-> | [-> | H]].
    + eapply Rle_trans; [apply fold_min_init | apply Rmin_l].
    + eapply Rle_trans; [apply fold_min_init | apply Rmin_r].
    + apply IH. now right.
Qed.

Lemma fold_max_init (t : list R) (x : R) : x <= fold_left Rmax t x.
Proof.
  revert x. induction t as [| y t IH]; intros x; cbn.
  - lra.
  - eapply Rle_trans; [apply Rmax_l | apply IH].
Qed.

Lemma fold_max_ge (t : list R) (x v : R) :
  In v (x :: t) -> v <= fold_left Rmax t x.
Proof.
  revert x. induction t as [| y t IH]; intros x H.
  - destruct H as [-> | []]. cbn. lra.
  - cbn [fold_left]. destruct H as [-> | [-> | H]].
    + eapply Rle_trans; [apply Rmax_l | apply fold_max_init].
    + eapply Rle_trans; [apply Rmax_r | apply fold_max_init].
    + apply IH. now right.
Qed.

Lemma nanpercentile_value (a : list float) (p : R) :
  0 <= p <= 100 -> remove_nan a <> [] ->
  nanpercentile a (fin p) = Py.ok (fin (quantile (remove_nan a) (p / 100))).
Proof.
  intros Hp Ha. unfold nanpercentile.
  assert (Rleb 0 (p / 100) = true) as -> by (apply Rleb_true; lra).
  assert (Rleb (p / 100) 1 = true) as -> by (apply Rleb_true; lra).
  cbn. destruct (remove_nan a); [congruence | reflexivity].
Qed.

End ColourRange.

(** C5: when the colormap is not [insar], the bounds are settled in
    three ways.  With both of [cmin] and [cmax] unset, both are
    percentiles of the data, at [100 - p] and at [p]; with one of them set,
    that one is kept and the other is the percentile; with both set, both
    are kept and no percentile is taken.  [p] is 99 unless an option
    changes it, and the percentile does not see NaN entries. *)
Theorem colour_range_cases (c : colormap) (g : globals) (data : list float) :
  is_insar c = false ->
  let p := auto_crange g in
  let low := Np.nanpercentile data (Np.sub (fin 100) p) in
  let high := Np.nanpercentile data p in
  match cmin g, cmax g with
  | None, None =>
      resolve c g data = (lo <- low ;; hi <- high ;; Py.ok (data, (lo, hi)))
  | Some lo, None =>
      resolve c g data = (hi <- high ;; Py.ok (data, (lo, hi)))
  | None, Some hi =>
      resolve c g data = (lo <- low ;; Py.ok (data, (lo, hi)))
  | Some lo, Some hi =>
      resolve c g data = Py.ok (data, (lo, hi))
  end
  /\ auto_crange defaults = fin 99
  /\ (forall q, Np.nanpercentile data q
                = Np.nanpercentile
                    (filter (fun f => negb (is_nan f)) data) q).
Proof.
  intros Hc p low high. split; [| split].
  - unfold resolve, insar_block, set_color_range. rewrite Hc.
    fold p. fold low. fold high.
    destruct (cmin g) as [lo |], (cmax g) as [hi |]; cbn.
    + reflexivity.
    + destruct high; reflexivity.
    + destruct low; reflexivity.
    + destruct low; cbn; [destruct high |]; reflexivity.
  - reflexivity.
  - intros q. symmetry. apply nanpercentile_ignores_nan.
Qed.

Lemma colour_range_cases_witness :
  is_insar (cmap_object "SCM5.roma.reversed()") = false /\
  resolve (cmap_object "SCM5.roma.reversed()") defaults [fin 0; nan; fin 1]
  = (lo <- Np.nanpercentile [fin 0; nan; fin 1] (Np.sub (fin 100) (fin 99)) ;;
     hi <- Np.nanpercentile [fin 0; nan; fin 1] (fin 99) ;;
     Py.ok ([fin 0; nan; fin 1], (lo, hi))).
Proof.
  split; [reflexivity |].
  exact (proj1 (colour_range_cases (cmap_object "SCM5.roma.reversed()")
                  defaults [fin 0; nan; fin 1] eq_refl)).
Defined.

Section AutoRange.

Import Np.

(** The quantile of two values in order. *)
Lemma quantile_pair (a b q : R) :
  a <= b -> 0 <= q < 1 -> quantile [a; b] q = a * (1 - q) + b * q.
Proof.
  intros Hab Hq. unfold quantile. cbn [sort insert List.length].
  assert (Rleb a b = true) as -> by now apply Rleb_true.
  replace (q * INR (2 - 1)) with q by (cbn; ring).
  rewrite (floor_unique q 0) by (cbn; lra).
  cbn. ring.
Qed.

(** The automatic bounds for a percentage in [0, 100], on data with a
    sample that is not NaN. *)
Lemma auto_range_value (data : list float) (p : R) :
  remove_nan data <> [] -> 0 <= p <= 100 ->
  set_color_range None None (fin p) data
  = Py.ok (true,
           fin (quantile (remove_nan data) ((100 - p) / 100)),
           fin (quantile (remove_nan data) (p / 100))).
Proof.
  intros Ha Hp. unfold set_color_range. cbn [sub].
  rewrite !nanpercentile_value by (assumption || lra). reflexivity.
Qed.

Lemma range_eq (b : bool) (lo hi lo' hi' : R) :
  lo = lo' -> hi = hi' ->
  @Py.ok (bool * float * float) (b, fin lo, fin hi) = Py.ok (b, fin lo', fin hi').
Proof. now intros -> ->. Qed.

End AutoRange.

(** C6, as stated, fails: with [--auto_crange 10] on the samples 0 and 1
    the lower bound is 0.9 and the upper bound 0.1. *)
Lemma auto_bounds_swapped :
  set_color_range None None (fin 10) [fin 0; fin 1]
  = Py.ok (true, fin (9 / 10), fin (1 / 10)) /\
  ~ 9 / 10 <= 1 / 10.
Proof.
  split; [| lra].
  rewrite auto_range_value by (cbn; (discriminate || lra)).
  cbn [Np.remove_nan]. rewrite !quantile_pair by lra.
  apply range_eq; lra.
Qed.

(** C6, amended: for a raster with a sample that is not NaN and a
    percentage [p] in [0, 100], both automatic bounds lie between
    [nanmin data] and [nanmax data]; [cmin <= cmax] holds when [p] is
    at least 50, and the order is the other way round when [p] is at
    most 50. *)
Theorem auto_bounds_ordered (data : list float) (p : R) :
  (exists x, In (fin x) data) ->
  0 <= p <= 100 ->
  exists lo hi mn mx : R,
    set_color_range None None (fin p) data = Py.ok (true, fin lo, fin hi) /\
    Np.nanmin data = fin mn /\
    Np.nanmax data = fin mx /\
    mn <= lo <= mx /\
    mn <= hi <= mx /\
    (50 <= p -> lo <= hi) /\
    (p <= 50 -> hi <= lo).
Proof.
  intros [x Hx] Hp.
  apply remove_nan_In in Hx.
  assert (Np.remove_nan data <> []) as Hne
    by (intros E; rewrite E in Hx; destruct Hx).
  rewrite auto_range_value by (assumption || lra).
  unfold Np.nanmin, Np.nanmax.
  destruct (Np.remove_nan data) as [| y t] eqn:Hs; [congruence |].
  exists (Np.quantile (y :: t) ((100 - p) / 100)),
         (Np.quantile (y :: t) (p / 100)),
         (fold_left Rmin t y), (fold_left Rmax t y).
  assert (forall v, In v (y :: t) ->
                    fold_left Rmin t y <= v <= fold_left Rmax t y) as Hb.
  { intros v Hv. split; [now apply fold_min_le | now apply fold_max_ge]. }
  split; [reflexivity |]. split; [reflexivity |]. split; [reflexivity |].
  split; [| split; [| split]].
  - apply (quantile_bounded (y :: t) _ _ _ Hne Hb). lra.
  - apply (quantile_bounded (y :: t) _ _ _ Hne Hb). lra.
  - intros H50. apply quantile_mono; [assumption | lra | lra | lra].
  - intros H50. apply quantile_mono; [assumption | lra | lra | lra].
Qed.

Lemma auto_bounds_ordered_witness :
  (exists x, In (fin x) [fin 0; nan; fin 1]) /\
  0 <= 99 <= 100 /\
  exists lo hi : R,
    set_color_range None None (fin 99) [fin 0; nan; fin 1]
    = Py.ok (true, fin lo, fin hi) /\ lo <= hi.
Proof.
  assert (exists x, In (fin x) [fin 0; nan; fin 1]) as H1
    by (exists 0; cbn; tauto).
  assert (0 <= 99 <= 100) as H2 by lra.
  split; [exact H1 |]. split; [exact H2 |].
  destruct (auto_bounds_ordered _ _ H1 H2)
    as (lo & hi & mn & mx & Hr & _ & _ & _ & _ & Hle & _).
  exists lo, hi. split; [assumption |]. apply Hle. lra.
Defined.

(** C7: for a raster whose samples are all zero, with the default
    percentage 99 and no bound given, the colour range is [cmin = 0] and
    [cmax = 0]. *)
Theorem zero_raster_range (data : list float) :
  data <> [] ->
  (forall f, In f data -> f = fin 0) ->
  set_color_range (cmin defaults) (cmax defaults) (auto_crange defaults) data
  = Py.ok (true, fin 0, fin 0).
Proof.
  intros Hne Hz. cbn [cmin cmax auto_crange defaults].
  assert (forall v, In v (Np.remove_nan data) -> 0 <= v <= 0) as Hb.
  { intros v Hv. apply remove_nan_In, Hz in Hv. injection Hv as ->. lra. }
  assert (Np.remove_nan data <> []) as Hs.
  { destruct data as [| f t]; [congruence |].
    rewrite (Hz f) by now left. discriminate. }
  rewrite auto_range_value by (assumption || lra).
  pose proof (quantile_bounded _ 0 0 ((100 - 99) / 100) Hs Hb ltac:(lra)).
  pose proof (quantile_bounded _ 0 0 (99 / 100) Hs Hb ltac:(lra)).
  apply range_eq; lra.
Qed.

Lemma zero_raster_range_witness :
  set_color_range (cmin defaults) (cmax defaults) (auto_crange defaults)
    [fin 0; fin 0; fin 0]
  = Py.ok (true, fin 0, fin 0).
Proof.
  apply zero_raster_range.
  - discriminate.
  - cbn. intros f [<- | [<- | [<- | []]]]; reflexivity.
Defined.

(** ** Strings: tokens of the output of [grep] *)

Section Tokens.

Local Open Scope string_scope.

Lemma split_aux_app_space (a b : string) (c : ascii) (cur : list ascii) :
  Py.isspace c = true ->
  Py.split_aux (a ++ String c b) cur
  = (Py.split_aux a cur ++ Py.split_aux b [])%list.
Proof.
  intros Hc. revert cur. induction a as [| d a IH]; intros cur.
  - cbn [append Py.split_aux]. rewrite Hc. destruct cur; reflexivity.
  - cbn [append Py.split_aux]. destruct (Py.isspace d).
    + rewrite IH. destruct cur; reflexivity.
    + apply IH.
Qed.

Lemma isspace_LF : Py.isspace Grep.LF = true.
Proof. reflexivity. Qed.

(** The tokens of what [grep] prints are the tokens of the selected lines,
    one line after the other. *)
Lemma split_output (ls : list string) :
  Py.split (Grep.output ls) = flat_map Py.split ls.
Proof.
  unfold Grep.output, Py.split.
  induction ls as [| l ls IH]; [reflexivity |].
  cbn [map flat_map].
  assert (forall s, String.concat "" (s :: map (fun l0 => l0 ++ String Grep.LF "") ls)
                    = s ++ String.concat "" (map (fun l0 => l0 ++ String Grep.LF "") ls))
    as Hcat.
  { intros s. destruct ls; cbn; [| reflexivity].
    induction s; cbn; congruence. }
  rewrite Hcat.
  assert (forall x y z, (x ++ y) ++ z = x ++ (y ++ z)) as Hassoc.
  { induction x; intros; cbn; congruence. }
  rewrite Hassoc. cbn [append].
  rewrite split_aux_app_space by apply isspace_LF.
  now rewrite IH.
Qed.

Lemma split_aux_solid (s : string) (cur : list ascii) :
  forallb (fun c => negb (Py.isspace c)) cur = true ->
  Forall solid (Py.split_aux s cur).
Proof.
  revert cur. induction s as [| c s IH]; intros cur Hcur.
  - cbn. destruct cur as [| d cur]; constructor; [| constructor].
    unfold solid. rewrite list_ascii_of_string_of_list_ascii.
    rewrite forallb_forall in *. intros x Hx. apply Hcur. now apply in_rev.
  - cbn [Py.split_aux]. destruct (Py.isspace c) eqn:Hc.
    + destruct cur as [| d cur]; [now apply IH |].
      constructor; [| now apply IH].
      unfold solid. rewrite list_ascii_of_string_of_list_ascii.
      rewrite forallb_forall in *. intros x Hx. apply Hcur. now apply in_rev.
    + apply IH. cbn. now rewrite Hc.
Qed.

Lemma split_solid (s : string) : Forall solid (Py.split s).
Proof. now apply split_aux_solid. Qed.

Lemma lstrip_solid (t : string) : solid t -> Py.lstrip t = t.
Proof.
  unfold solid. destruct t as [| c t]; [reflexivity |].
  cbn. destruct (Py.isspace c); [discriminate | reflexivity].
Qed.

Lemma reverse_solid (t : string) : solid t -> solid (Py.reverse t).
Proof.
  unfold solid, Py.reverse. rewrite list_ascii_of_string_of_list_ascii.
  rewrite !forallb_forall. intros H x Hx. apply H. now apply in_rev.
Qed.

Lemma reverse_reverse (t : string) : Py.reverse (Py.reverse t) = t.
Proof.
  unfold Py.reverse. rewrite list_ascii_of_string_of_list_ascii.
  rewrite rev_involutive. apply string_of_list_ascii_of_string.
Qed.

(** [strip] leaves a token as it is. *)
Lemma strip_solid (t : string) : solid t -> Py.strip t = t.
Proof.
  intros H. unfold Py.strip.
  rewrite (lstrip_solid t H).
  rewrite (lstrip_solid _ (reverse_solid t H)).
  apply reverse_reverse.
Qed.

Lemma flat_map_split_solid (ls : list string) (i : nat) (tok : string) :
  nth_error (flat_map Py.split ls) i = Some tok -> solid tok.
Proof.
  intros H. apply nth_error_In in H. apply in_flat_map in H.
  destruct H as (l & _ & Hl).
  pose proof (split_solid l) as Hs. rewrite Forall_forall in Hs. auto.
Qed.

(** One field, line by line. *)
Lemma field_second_token (key text : string) (z : Z) :
  field key (Some text) = Py.ok z <->
  exists tok, second_token key text = Some tok /\ Py.int tok = Py.ok z.
Proof.
  unfold field, second_token, Grep.check_output.
  destruct (Grep.selected key text) as [| l ls] eqn:Hsel.
  - cbn. split; [discriminate | intros (tok & H & _); discriminate].
  - cbn [Py.bind]. rewrite split_output. unfold Py.item.
    destruct (nth_error (flat_map Py.split (l :: ls)) 1) as [tok |] eqn:Ht.
    + cbn [Py.bind]. rewrite (strip_solid tok (flat_map_split_solid _ _ _ Ht)).
      split.
      * intros H. now exists tok.
      * intros (tok' & H & Hi). now injection H as <-.
    + cbn. split; [discriminate | intros (tok & H & _); discriminate].
Qed.

End Tokens.

(** ** Width and length from the parameter file *)

(** C3, as stated, fails.  In a parameter file in the style of
    EQA.dem_par, where the keys end in a colon, no line has [width] as its
    first token, yet the code reads the width and the length; and a line
    whose first token is [bandwidth] gives the width.  Read by first-token
    equality, both files would have no field at all. *)
Lemma first_token_not_the_rule :
  get_info (Some eqa_par) = Py.ok (2, 1)%Z /\
  spec_get_info eqa_par = Py.raise Py.ValueError /\
  get_info (Some ("bandwidth 9" ++ nl ++ "nlines 5" ++ nl)%string)
  = Py.ok (9, 5)%Z /\
  spec_get_info ("bandwidth 9" ++ nl ++ "nlines 5" ++ nl)%string
  = Py.raise Py.ValueError.
Proof. repeat split; vm_compute; reflexivity. Qed.

(** C3, amended: for each key, [grep] selects the lines in which the key
    occurs anywhere, and the second white-space-separated token of the
    selected lines, taken together in the order of the file, is parsed as
    the integer; [width] and [nlines] are tried first, and
    [range_samples] and [azimuth_lines] are used when either of the first
    two fails in any way (no line selected, fewer than two tokens, not an
    integer). *)
Theorem get_info_by_grep (text : string) (w l : Z) :
  let reads key z :=
    exists tok, second_token key text = Some tok /\ Py.int tok = Py.ok z in
  get_info (Some text) = Py.ok (w, l) <->
  (reads "width"%string w /\ reads "nlines"%string l) \/
  (~ (exists w' l', reads "width"%string w' /\ reads "nlines"%string l') /\
   reads "range_samples"%string w /\ reads "azimuth_lines"%string l).
Proof.
  intros reads.
  assert (forall key z, field key (Some text) = Py.ok z <-> reads key z)
    as Hf by (intros; apply field_second_token).
  unfold get_info, Py.try_except.
  destruct (field "width" (Some text)) as [w1 | e1] eqn:H1; cbn [Py.bind].
  - destruct (field "nlines" (Some text)) as [l1 | e2] eqn:H2; cbn [Py.bind].
    + apply Hf in H1, H2. split.
      * intros H. injection H as <- <-. left. auto.
      * intros [[Hw Hl] | [Hn _]].
        -- apply Hf in Hw, Hl, H1, H2. congruence.
        -- exfalso. apply Hn. eauto.
    + split.
      * intros H. right. split.
        -- intros (w' & l' & _ & Hl). apply Hf in Hl. congruence.
        -- destruct (field "range_samples" (Some text)) as [w2 | ?] eqn:H3;
             cbn [Py.bind] in H; [| discriminate].
           destruct (field "azimuth_lines" (Some text)) as [l2 | ?] eqn:H4;
             cbn [Py.bind] in H; [| discriminate].
           injection H as <- <-. split; now apply Hf.
      * intros [[_ Hl] | (_ & Hw & Hl)].
        -- apply Hf in Hl. congruence.
        -- apply Hf in Hw, Hl. now rewrite Hw, Hl.
  - split.
    + intros H. right. split.
      * intros (w' & l' & Hw & _). apply Hf in Hw. congruence.
      * destruct (field "range_samples" (Some text)) as [w2 | ?] eqn:H3;
          cbn [Py.bind] in H; [| discriminate].
        destruct (field "azimuth_lines" (Some text)) as [l2 | ?] eqn:H4;
          cbn [Py.bind] in H; [| discriminate].
        injection H as <- <-. split; now apply Hf.
    + intros [[Hw _] | (_ & Hw & Hl)].
      * apply Hf in Hw. congruence.
      * apply Hf in Hw, Hl. now rewrite Hw, Hl.
Qed.

Lemma get_info_by_grep_witness :
  (exists tok, second_token "width" eqa_par = Some tok /\
               Py.int tok = Py.ok 2%Z) /\
  (exists tok, second_token "nlines" eqa_par = Some tok /\
               Py.int tok = Py.ok 1%Z) /\
  get_info (Some eqa_par) = Py.ok (2, 1)%Z.
Proof.
  assert (exists tok, second_token "width" eqa_par = Some tok /\
                      Py.int tok = Py.ok 2%Z) as Hw
    by (exists "2"%string; split; reflexivity).
  assert (exists tok, second_token "nlines" eqa_par = Some tok /\
                      Py.int tok = Py.ok 1%Z) as Hl
    by (exists "1"%string; split; reflexivity).
  split; [exact Hw |]. split; [exact Hl |].
  apply (proj2 (get_info_by_grep eqa_par 2 1)). left. split; assumption.
Defined.

(** Once the width and the length are known the run no longer exits
    with a code. *)
Lemma plot_ending (E : env) (g : globals) (c : colormap) (w l : Z)
    (d : list float) (clim : float * float) (cs : list plt_call) :
  (exists e, ending (plot E g c w l d clim cs) = traceback e) \/
  ending (plot E g c w l d clim cs) = finished.
Proof.
  unfold plot. destruct (w =? 0)%Z; [left; eexists; reflexivity |].
  destruct (save_or_show (pngname g)) as [last out].
  match goal with
  | |- context [plt_do E ?t cs] => destruct (plt_do E t cs) as [made [e |]]
  end; [left; eexists; reflexivity | right; reflexivity].
Qed.

(** C4, as stated, fails: a parameter file that holds both pairs of keys
    is accepted, the run draws the figure with the width and the length
    of the first pair and ends normally. *)
Lemma both_pairs_accepted :
  get_info (Some both_par) = Py.ok (2, 1)%Z /\
  exit_code (ending (main (world both_par)
    ["-i"; "a.bin"; "-p"; "a.par"; "--cmin"; "0"; "--cmax"; "1"]%string))
  = 0%Z.
Proof.
  split; [vm_compute; reflexivity |].
  cbv -[wrap PI Ropp IZR Rmult Rdiv Rminus]. reflexivity.
Qed.

(** C4, amended: once the options are read and the colormap is set, the
    run ends with exit code 2, and then with the message naming the
    parameter file on the error stream and nothing drawn (the only call
    made is the registration of the colormap, when it is [insar]),
    exactly when the extraction fails for [width]/[nlines] and for
    [range_samples]/[azimuth_lines] as well.  A file from which [width]
    and [nlines] can be read is accepted whatever else it holds, the other
    pair included, and their values are the ones used. *)
Theorem no_fields_exit (E : env) (args : list string) (g : globals)
    (cc : colormap * list plt_call) :
  read_options E args = next g ->
  set_cmap E (cmap g) = next cc ->
  let par := text_of (parfile g) in
  let text := read_text E par in
  let eqa := (width <- field "width" text ;;
              length <- field "nlines" text ;; Py.ok (width, length)) in
  let slc := (width <- field "range_samples" text ;;
              length <- field "azimuth_lines" text ;; Py.ok (width, length)) in
  let neither := exists e e', eqa = Py.raise e /\ slc = Py.raise e' in
  (ending (main E args) = exited 2 <-> neither) /\
  (neither ->
   main E args
   = {| ending := exited 2;
        stdout := "";
        stderr := ("No fields about width/length found in "
                   ++ par ++ "!" ++ nl)%string;
        calls := snd cc |} /\
   snd cc = if String.eqb (cmap g) "insar"
            then [plt_register_cmap "insar"] else []) /\
  (forall wl, eqa = Py.ok wl -> get_info text = Py.ok wl).
Proof.
  intros Hro Hc par text eqa slc neither.
  assert (get_info text = Py.try_except eqa slc) as Hgi by reflexivity.
  assert (snd cc = if String.eqb (cmap g) "insar"
                   then [plt_register_cmap "insar"] else []) as Hreg.
  { clear - Hc. unfold set_cmap, uncaught in Hc.
    destruct (Py.startswith (cmap g) "SCM5") eqn:Hs.
    - destruct (exec_defined E _); [| discriminate].
      injection Hc as <-. cbn [snd].
      destruct (String.eqb (cmap g) "insar") eqn:Hi; [| reflexivity].
      apply String.eqb_eq in Hi. rewrite Hi in Hs. discriminate.
    - destruct (String.eqb (cmap g) "insar").
      + destruct (plt_raises E _); [discriminate |]. now injection Hc as <-.
      + now injection Hc as <-. }
  assert (neither ->
          main E args
          = {| ending := exited 2; stdout := "";
               stderr := ("No fields about width/length found in "
                          ++ par ++ "!" ++ nl)%string;
               calls := snd cc |}) as Hmsg.
  { intros (e & e' & He & He').
    unfold main. rewrite Hro, Hc. destruct cc as [c cs].
    unfold get_info_or_exit. fold par. fold text.
    rewrite Hgi, He. cbn [Py.try_except]. rewrite He'. reflexivity. }
  assert (forall wl, get_info text = Py.ok wl ->
                     ending (main E args) <> exited 2) as Hok.
  { intros [w l] Hwl Hend. unfold main in Hend. rewrite Hro, Hc in Hend.
    destruct cc as [c cs]. unfold get_info_or_exit in Hend.
    fold par in Hend. fold text in Hend. rewrite Hwl in Hend.
    destruct (read_img E (text_of (infile g)) l w (endian g))
      as [data |]; [| discriminate].
    destruct (resolve c g data) as [[d clim] |]; [| discriminate].
    destruct (plot_ending E g c w l d clim cs) as [[e H] | H];
      rewrite H in Hend; discriminate. }
  split; [split | split].
  - intros Hend.
    destruct eqa as [wl | e] eqn:He.
    + exfalso. apply (Hok wl); [| assumption]. now rewrite Hgi.
    + destruct slc as [wl | e'] eqn:He'.
      * exfalso. apply (Hok wl); [| assumption]. now rewrite Hgi.
      * exists e, e'. split; reflexivity.
  - intros Hn. now rewrite (Hmsg Hn).
  - intros Hn. split; [exact (Hmsg Hn) | exact Hreg].
  - intros wl He. rewrite Hgi, He. reflexivity.
Qed.

(** A parameter file that holds only [foo 1], with the [insar] colormap:
    the registration is the one call made. *)
Lemma no_fields_exit_witness :
  main (world foo_par) ["-i"; "a.bin"; "-p"; "a.par"; "-c"; "insar"]%string
  = {| ending := exited 2;
       stdout := "";
       stderr := ("No fields about width/length found in a.par!" ++ nl)%string;
       calls := [plt_register_cmap "insar"] |}.
Proof.
  pose (g := {| infile := str "a.bin"; parfile := str "a.par";
                cmap := "insar"; cmin := None; cmax := None;
                auto_crange := fin 99; cycle := fin 3; endian := little;
                pngname := empty_list |}).
  destruct (no_fields_exit (world foo_par)
              ["-i"; "a.bin"; "-p"; "a.par"; "-c"; "insar"]%string g
              (cmap_name "insar", [plt_register_cmap "insar"])
              eq_refl eq_refl) as (_ & H & _).
  apply H. exists Py.CalledProcessError, Py.CalledProcessError.
  split; reflexivity.
Defined.

(** ** Options *)

Section Options.

Local Open Scope string_scope.

Lemma do_longs_shorter (opts : list Getopt.opt) (o : string)
    (lo args : list string) (opts' : list Getopt.opt) (args' : list string) :
  Getopt.do_longs opts o lo args = Getopt.parsed (opts', args') ->
  (List.length args' <= List.length args)%nat.
Proof.
  unfold Getopt.do_longs.
  destruct (Py.index_char "=" o) as [i |];
    destruct (Getopt.long_has_args _ lo) as [[[] o'] | msg];
    try discriminate; try destruct args as [| a args];
    intros H; try discriminate; injection H as _ <-; cbn; lia.
Qed.

Lemma do_shorts_shorter (optstring so : string) (opts : list Getopt.opt)
    (args : list string) (opts' : list Getopt.opt) (args' : list string) :
  Getopt.do_shorts opts optstring so args = Getopt.parsed (opts', args') ->
  (List.length args' <= List.length args)%nat.
Proof.
  revert opts. induction optstring as [| c s IH]; intros opts H.
  - injection H as _ <-. lia.
  - cbn [Getopt.do_shorts] in H.
    destruct (Getopt.short_has_arg c so) as [[] | msg]; try discriminate.
    + destruct s; [destruct args as [| a args] |]; try discriminate;
        injection H as _ <-; cbn; lia.
    + eapply IH; eassumption.
Qed.

(** The loop of [getopt] ends within [length args] turns. *)
Lemma loop_total (fuel : nat) (opts : list Getopt.opt) (args : list string)
    (so : string) (lo : list string) :
  (List.length args <= fuel)%nat ->
  exists r, Getopt.loop fuel opts args so lo = Some r.
Proof.
  revert opts args. induction fuel as [| fuel IH]; intros opts args Hlen.
  - destruct args; [| cbn in Hlen; lia]. cbn. eauto.
  - destruct args as [| a rest]; [cbn; eauto |].
    cbn [Getopt.loop]. cbn in Hlen.
    destruct (negb (Py.startswith a "-") || String.eqb a "-"); [eauto |].
    destruct (String.eqb a "--"); [eauto |].
    destruct (Py.startswith a "--").
    + destruct (Getopt.do_longs opts (Py.drop 2 a) lo rest)
        as [[opts' args'] | msg] eqn:Hd; [| eauto].
      apply do_longs_shorter in Hd. apply IH. lia.
    + destruct (Getopt.do_shorts opts (Py.drop 1 a) so rest)
        as [[opts' args'] | msg] eqn:Hd; [| eauto].
      apply do_shorts_shorter in Hd. apply IH. lia.
Qed.

Lemma getopt_loop (args : list string) (so : string) (lo : list string) :
  Getopt.loop (List.length args) [] args so lo
  = Some (Getopt.getopt args so lo).
Proof.
  unfold Getopt.getopt.
  destruct (loop_total (List.length args) [] args so lo (le_n _)) as [r ->].
  reflexivity.
Qed.

(** What the option loop leaves in [pngname]. *)
Lemma read_opts_pngname (E : env) (opts : list Getopt.opt) (g g' : globals) :
  read_opts E opts g = next g' ->
  pngname g' = supplied "--png" opts (pngname g).
Proof.
  revert g. induction opts as [| [o a] opts IH]; intros g H.
  - injection H as <-. reflexivity.
  - cbn [read_opts] in H. cbn [supplied fold_left fst snd].
    fold (supplied "--png" opts).
    destruct (String.eqb o "--png") eqn:Hpng.
    + apply String.eqb_eq in Hpng. subst o. cbn in H.
      now rewrite (IH _ H).
    + unfold to_float, uncaught in H.
      repeat break_if; try discriminate;
        try (rewrite (IH _ H); reflexivity);
        destruct (float_of_string E a); try discriminate;
        rewrite (IH _ H); reflexivity.
Qed.

(** What the option loop leaves in [infile]. *)
Lemma read_opts_infile (E : env) (opts : list Getopt.opt) (g g' : globals) :
  read_opts E opts g = next g' ->
  infile g' = supplied "-i" opts (infile g).
Proof.
  revert g. induction opts as [| [o a] opts IH]; intros g H.
  - injection H as <-. reflexivity.
  - cbn [read_opts] in H. cbn [supplied fold_left fst snd].
    fold (supplied "-i" opts).
    destruct (String.eqb o "-i") eqn:Hi.
    + apply String.eqb_eq in Hi. subst o. cbn in H.
      now rewrite (IH _ H).
    + unfold to_float, uncaught in H.
      repeat break_if; try discriminate;
        try (rewrite (IH _ H); reflexivity);
        destruct (float_of_string E a); try discriminate;
        rewrite (IH _ H); reflexivity.
Qed.

Lemma prefix_app (p b : string) : String.prefix p (p ++ b) = true.
Proof.
  induction p as [| c p IH]; cbn.
  - now destruct b.
  - destruct (ascii_dec c c); [assumption | congruence].
Qed.

Lemma contains_prefix (s p : string) :
  String.prefix p s = true -> Py.contains s p = true.
Proof. intros H. destruct s; cbn [Py.contains]; now rewrite H. Qed.

Lemma contains_app (a p b : string) : Py.contains (a ++ p ++ b) p = true.
Proof.
  induction a as [| c a IH].
  - cbn [append]. apply contains_prefix. apply prefix_app.
  - cbn [append Py.contains]. rewrite IH. apply orb_true_r.
Qed.

End Options.

(** ** Missing input file *)

Section MissingInput.

Local Open Scope string_scope.

(** Without a request for help and with well-formed numbers, the option
    loop runs to its end. *)
Lemma read_opts_completes (E : env) (opts : list Getopt.opt) (g : globals) :
  (forall o a, In (o, a) opts -> o <> "-h" /\ o <> "--help") ->
  (forall o a, In (o, a) opts -> In o numeric_options ->
               float_of_string E a <> None) ->
  exists g', read_opts E opts g = next g'.
Proof.
  revert g. induction opts as [| [o a] opts IH]; intros g Hhelp Hnum.
  - eexists. reflexivity.
  - assert (forall g0, exists g', read_opts E opts g0 = next g') as Hrest.
    { intros g0. apply IH.
      - intros o' a' H. apply (Hhelp o' a'). now right.
      - intros o' a' H. apply (Hnum o' a'). now right. }
    destruct (Hhelp o a (or_introl eq_refl)) as [Hh Hh'].
    apply String.eqb_neq in Hh, Hh'.
    cbn [read_opts]. rewrite Hh, Hh'. cbn [orb]. unfold to_float.
    repeat break_if; try apply Hrest;
      (destruct (float_of_string E a) eqn:Hf; [apply Hrest |]);
      exfalso; apply (Hnum o a (or_introl eq_refl)); try assumption;
      repeat match goal with
             | Hq : String.eqb o _ = true |- _ =>
                 apply String.eqb_eq in Hq; subst o
             end;
      cbn; tauto.
Qed.

(** When the option loop has run to its end and the input path does not
    exist, the run ends on the message about that path. *)
Lemma missing_input_after_loop (E : env) (args : list string)
    (opts : list Getopt.opt) (rest : list string) (g : globals)
    (path : string) :
  Getopt.getopt args shortopts longopts = Getopt.parsed (opts, rest) ->
  read_opts E opts defaults = next g ->
  supplied "-i" opts empty_list = str path ->
  path <> "" ->
  path_exists E path = false ->
  main E args
  = {| ending := exited 2; stdout := "";
       stderr := nl ++ "ERROR:  " ++ ("No " ++ path ++ " exists!")
                 ++ nl ++ nl ++ "For help, use -h or --help."
                 ++ nl ++ nl;
       calls := [] |}.
Proof.
  intros Hg Hr Hi Hne Hex.
  assert (infile g = str path) as Hin.
  { rewrite (read_opts_infile _ _ _ _ Hr). exact Hi. }
  unfold main, read_options. rewrite Hg, Hr, Hin.
  cbn [truthy text_of].
  apply String.eqb_neq in Hne. rewrite Hne, Hex. reflexivity.
Qed.

End MissingInput.

(** C8, as stated, fails: the options are read before the paths are
    looked at.  With a missing input file, a request for help still ends
    the run with exit code 0 and the usage text; a number that [float]
    cannot read ends it with an uncaught [ValueError]; an option that
    [getopt] refuses gives its own message; and an empty path is reported
    as no path at all. *)
Lemma missing_input_not_first :
  path_exists demo_env "missing.bin" = false /\
  main demo_env ["-i"; "missing.bin"; "-h"]%string
  = {| ending := exited 0; stdout := (__doc__ ++ nl)%string;
       stderr := ""; calls := [] |} /\
  main demo_env ["-i"; "missing.bin"; "--cmin"; "abc"]%string
  = {| ending := traceback Py.ValueError; stdout := "";
       stderr := ""; calls := [] |} /\
  Py.contains
    (stderr (main demo_env ["-i"; "missing.bin"; "--bogus"]%string))
    "No missing.bin exists!" = false /\
  path_exists demo_env "" = false /\
  Py.contains (stderr (main demo_env ["-i"; ""; "-p"; "a.par"]%string))
    "No  exists!" = false.
Proof. repeat split; vm_compute; reflexivity. Qed.

(** C8, amended: when [getopt] accepts the command line, no option is a
    request for help and every argument of a numeric option is a
    well-formed float, and the last [-i] argument is a path that is not
    empty and does not exist, the run writes [No <path> exists!] in its
    error message, exits with code 2, prints nothing on the output stream
    and makes no drawing call: no image is shown or saved. *)
Theorem missing_input_exit (E : env) (args : list string)
    (opts : list Getopt.opt) (rest : list string) (path : string) :
  Getopt.getopt args shortopts longopts = Getopt.parsed (opts, rest) ->
  (forall o a, In (o, a) opts -> o <> "-h"%string /\ o <> "--help"%string) ->
  (forall o a, In (o, a) opts -> In o numeric_options ->
               float_of_string E a <> None) ->
  supplied "-i" opts empty_list = str path ->
  path <> ""%string ->
  path_exists E path = false ->
  let r := main E args in
  ending r = exited 2 /\
  stderr r = (nl ++ "ERROR:  " ++ ("No " ++ path ++ " exists!") ++ nl ++ nl
              ++ "For help, use -h or --help." ++ nl ++ nl)%string /\
  Py.contains (stderr r) ("No " ++ path ++ " exists!") = true /\
  stdout r = ""%string /\
  calls r = [].
Proof.
  intros Hg Hhelp Hnum Hi Hne Hex r.
  destruct (read_opts_completes E opts defaults Hhelp Hnum) as [g Hr].
  subst r.
  rewrite (missing_input_after_loop E args opts rest g path Hg Hr Hi Hne Hex).
  cbn [ending stderr stdout calls]. repeat split.
  exact (contains_app (nl ++ "ERROR:  ")%string
           ("No " ++ path ++ " exists!")%string
           (nl ++ nl ++ "For help, use -h or --help." ++ nl ++ nl)%string).
Qed.

Lemma missing_input_exit_witness :
  let r := main demo_env ["-i"; "missing.bin"; "-p"; "a.par"]%string in
  ending r = exited 2 /\
  stderr r = (nl ++ "ERROR:  " ++ "No missing.bin exists!" ++ nl ++ nl
              ++ "For help, use -h or --help." ++ nl ++ nl)%string /\
  Py.contains (stderr r) "No missing.bin exists!" = true /\
  stdout r = ""%string /\
  calls r = [].
Proof.
  apply (missing_input_exit demo_env
           ["-i"; "missing.bin"; "-p"; "a.par"]%string
           [("-i", "missing.bin"); ("-p", "a.par")]%string []
           "missing.bin"%string).
  - reflexivity.
  - intros o a H. cbn in H.
    destruct H as [H | [H | []]]; injection H as <- <-;
      split; discriminate.
  - intros o a H Ho. cbn in H, Ho.
    destruct H as [H | [H | []]]; injection H as <- <-;
      destruct Ho as [Ho | [Ho | [Ho | [Ho | []]]]]; discriminate.
  - reflexivity.
  - discriminate.
  - reflexivity.
Defined.

(** ** Saving or showing *)

Section Saving.

Local Open Scope string_scope.

Lemma read_opts_stop_ending (E : env) (opts : list Getopt.opt) (g : globals)
    (r : run) :
  read_opts E opts g = stop r -> ending r <> finished.
Proof.
  revert g. induction opts as [| [o a] opts IH]; intros g H.
  - discriminate.
  - cbn [read_opts] in H. unfold to_float, uncaught in H.
    repeat break_if;
      try (injection H as <-; discriminate);
      try (eapply IH; eassumption);
      destruct (float_of_string E a);
      try (injection H as <-; discriminate);
      eapply IH; eassumption.
Qed.

(** A plot block that reaches its end made all its calls. *)
Lemma plot_finished (E : env) (g : globals) (c : colormap) (w l : Z)
    (d : list float) (clim : float * float) (cs : list plt_call) :
  ending (plot E g c w l d clim cs) = finished ->
  (w =? 0)%Z = false /\
  plot E g c w l d clim cs
  = {| ending := finished;
       stdout := snd (save_or_show (pngname g));
       stderr := "";
       calls := cs
                ++ [plt_figure (text_of (infile g))
                      ((if (w <? l)%Z then 6%R else 8%R),
                       (((if (w <? l)%Z then 6 else 8) - 2)
                        * IZR l / IZR w)%R);
                    plt_imshow d clim c]
                ++ (if is_insar c then [] else [plt_colorbar])
                ++ [plt_tight_layout]
                ++ fst (save_or_show (pngname g)) |}.
Proof.
  unfold plot. destruct (w =? 0)%Z; [discriminate |].
  destruct (save_or_show (pngname g)) as [last out].
  match goal with
  | |- context [plt_do E ?t cs] =>
      destruct (plt_do E t cs) as [made [e |]] eqn:Hdo
  end; [discriminate |].
  intros _. split; [reflexivity |].
  apply plt_do_made in Hdo. destruct Hdo as [-> _]. reflexivity.
Qed.

(** A run that reaches its end went through every step. *)
Lemma main_finished (E : env) (args : list string) :
  ending (main E args) = finished ->
  exists opts rest g c cs w l d clim,
    Getopt.getopt args shortopts longopts = Getopt.parsed (opts, rest) /\
    read_opts E opts defaults = next g /\
    set_cmap E (cmap g) = next (c, cs) /\
    (w =? 0)%Z = false /\
    main E args
    = {| ending := finished;
         stdout := snd (save_or_show (pngname g));
         stderr := "";
         calls := cs
                  ++ [plt_figure (text_of (infile g))
                        ((if (w <? l)%Z then 6%R else 8%R),
                         (((if (w <? l)%Z then 6 else 8) - 2)
                          * IZR l / IZR w)%R);
                      plt_imshow d clim c]
                  ++ (if is_insar c then [] else [plt_colorbar])
                  ++ [plt_tight_layout]
                  ++ fst (save_or_show (pngname g)) |}.
Proof.
  unfold main, read_options, usage_exit. intros H.
  destruct (Getopt.getopt args shortopts longopts)
    as [[opts rest] | msg] eqn:Hg; [| discriminate].
  destruct (read_opts E opts defaults) as [g | r] eqn:Hr.
  2:{ now apply read_opts_stop_ending in Hr. }
  destruct (negb (truthy (infile g))); [discriminate |].
  destruct (negb (path_exists E (text_of (infile g)))); [discriminate |].
  destruct (negb (truthy (parfile g))); [discriminate |].
  destruct (negb (path_exists E (text_of (parfile g)))); [discriminate |].
  destruct (set_cmap E (cmap g)) as [[c cs] | r] eqn:Hc.
  2:{ destruct (set_cmap_stop _ _ _ Hc) as [_ [e He]].
      rewrite He in H. discriminate. }
  unfold get_info_or_exit in *.
  destruct (get_info (read_text E (text_of (parfile g)))) as [[w l] | e];
    [| discriminate].
  destruct (read_img E (text_of (infile g)) l w (endian g)) as [data | e];
    [| discriminate].
  destruct (resolve c g data) as [[d clim] | e]; [| discriminate].
  exists opts, rest, g, c, cs, w, l, d, clim.
  destruct (plot_finished _ _ _ _ _ _ _ _ H) as [Hw Hp].
  repeat split; assumption.
Qed.

Lemma substring_full (s : string) : substring 0 (String.length s) s = s.
Proof. induction s as [| c s IH]; cbn; [reflexivity | now rewrite IH]. Qed.

End Saving.

(** C10: [--png] takes an argument whenever it is given: the option table
    declares it as [png=], so without a word after it the options are
    refused, and otherwise the next word, or the text after [=], is its
    argument.  A run that reaches its end saves the figure and prints the
    confirmation exactly when the last [--png] argument is a string that
    is not empty; with an empty argument, as without the option, it shows
    the figure and writes no file. *)
Theorem png_needs_argument (E : env) (args : list string) :
  Getopt.long_has_args "png" longopts = Getopt.parsed (true, "png"%string) /\
  (forall opts,
      Getopt.do_longs opts "png" longopts []
      = Getopt.GetoptError "option --png requires argument") /\
  (forall opts a rest,
      Getopt.do_longs opts "png" longopts (a :: rest)
      = Getopt.parsed (opts ++ [("--png"%string, a)], rest)) /\
  (forall opts a rest,
      Getopt.do_longs opts ("png=" ++ a) longopts rest
      = Getopt.parsed (opts ++ [("--png"%string, a)], rest)) /\
  (ending (main E args) = finished ->
   exists opts rest,
     Getopt.getopt args shortopts longopts = Getopt.parsed (opts, rest) /\
     let r := main E args in
     let shown :=
       In plt_show (calls r) /\ (forall f, ~ In (plt_savefig f) (calls r)) /\
       stdout r = ""%string in
     match supplied "--png" opts empty_list with
     | empty_list => shown
     | str p =>
         if String.eqb p ""
         then shown
         else (forall f, In (plt_savefig f) (calls r) <-> f = p) /\
              ~ In plt_show (calls r) /\
              stdout r = (nl ++ "Output: " ++ p ++ nl ++ nl)%string
     end).
Proof.
  split; [reflexivity |].
  split; [reflexivity |].
  split; [reflexivity |].
  split.
  { intros opts a rest. unfold Getopt.do_longs.
    cbn [Py.index_char append Ascii.eqb Bool.eqb option_map].
    unfold Py.take, Py.drop. cbn [append String.length Nat.add Nat.sub substring].
    rewrite Nat.sub_0_r, substring_full. reflexivity. }
  intros Hfin.
  destruct (main_finished E args Hfin)
    as (opts & rest & g & c & cs & w & l & d & clim & Hg & Hr & Hc & Hw & Hm).
  exists opts, rest. split; [exact Hg |].
  pose proof (read_opts_pngname _ _ _ _ Hr) as Hpn.
  change (pngname defaults) with empty_list in Hpn. rewrite <- Hpn.
  destruct (set_cmap_next _ _ _ _ Hc) as (_ & Hsave & Hshow & _).
  cbv zeta. rewrite Hm.
  assert (forall x, In x (cs ++ [plt_figure (text_of (infile g))
                          ((if (w <? l)%Z then 6%R else 8%R),
                           (((if (w <? l)%Z then 6 else 8) - 2) * IZR l / IZR w)%R);
                        plt_imshow d clim c]
                     ++ (if is_insar c then [] else [plt_colorbar])
                     ++ [plt_tight_layout]) ->
                     x <> plt_show /\ forall f, x <> plt_savefig f) as Hpre.
  { intros x Hx. rewrite !in_app_iff in Hx.
    destruct Hx as [Hx | [Hx | [Hx | Hx]]].
    - split; [intros -> | intros f ->]; [now apply Hshow | now apply (Hsave f)].
    - cbn in Hx. destruct Hx as [<- | [<- | []]]; split; intros; discriminate.
    - destruct (is_insar c); cbn in Hx; [destruct Hx |].
      destruct Hx as [<- | []]. split; intros; discriminate.
    - cbn in Hx. destruct Hx as [<- | []]. split; intros; discriminate. }
  unfold save_or_show.
  destruct (pngname g) as [| p] eqn:Hp; cbn [truthy text_of].
  - cbn [calls stdout]. rewrite !app_assoc. repeat split.
    + apply in_or_app. right. now left.
    + intros f Hf. apply in_app_or in Hf. destruct Hf as [Hf | Hf].
      * rewrite <- !app_assoc in Hf. apply Hpre in Hf.
        destruct Hf as [_ Hf]. now apply (Hf f).
      * cbn in Hf. destruct Hf as [Hf | []]. discriminate.
  - destruct (String.eqb p "") eqn:He; cbn [negb calls stdout].
    + rewrite !app_assoc. repeat split.
      * apply in_or_app. right. now left.
      * intros f Hf. apply in_app_or in Hf. destruct Hf as [Hf | Hf].
        -- rewrite <- !app_assoc in Hf. apply Hpre in Hf.
           destruct Hf as [_ Hf]. now apply (Hf f).
        -- cbn in Hf. destruct Hf as [Hf | []]. discriminate.
    + rewrite !app_assoc. repeat split.
      * intros Hf. apply in_app_or in Hf. destruct Hf as [Hf | Hf].
        -- rewrite <- !app_assoc in Hf. apply Hpre in Hf.
           destruct Hf as [_ Hf]. now destruct (Hf f).
        -- cbn in Hf. destruct Hf as [Hf | []]. now injection Hf.
      * intros ->. apply in_or_app. right. now left.
      * intros Hf. apply in_app_or in Hf. destruct Hf as [Hf | Hf].
        -- rewrite <- !app_assoc in Hf. apply Hpre in Hf.
           now destruct Hf as [Hf _].
        -- cbn in Hf. destruct Hf as [Hf | []]. discriminate.
Qed.

Lemma png_needs_argument_witness :
  let r := main demo_env
             ["-i"; "a.bin"; "-p"; "a.par"; "--cmin"; "0"; "--cmax"; "1";
              "--png"; "out.png"]%string in
  ending r = finished /\
  (forall f, In (plt_savefig f) (calls r) <-> f = "out.png"%string) /\
  ~ In plt_show (calls r) /\
  stdout r = (nl ++ "Output: out.png" ++ nl ++ nl)%string.
Proof.
  intros r.
  assert (ending r = finished) as Hfin.
  { subst r. cbv -[wrap PI Ropp IZR Rmult Rdiv Rminus]. reflexivity. }
  split; [exact Hfin |].
  destruct (png_needs_argument demo_env
              ["-i"; "a.bin"; "-p"; "a.par"; "--cmin"; "0"; "--cmax"; "1";
               "--png"; "out.png"]%string) as (_ & _ & _ & _ & H).
  destruct (H Hfin) as (opts & rest & Hg & Hm).
  vm_compute in Hg. injection Hg as <- <-.
  exact Hm.
Defined.

(** * Further properties of the script *)

(** ** Phase wrap: whole turns *)

Section Turns.

Lemma period_Z (x : R) (k : Z) :
  sin (x + 2 * IZR k * PI) = sin x /\ cos (x + 2 * IZR k * PI) = cos x.
Proof.
  destruct (Z_le_gt_dec 0 k) as [Hk | Hk].
  - rewrite <- (Z2Nat.id k Hk), <- INR_IZR_INZ.
    split; [apply sin_period | apply cos_period].
  - assert (IZR k = - INR (Z.to_nat (- k))) as ->.
    { rewrite INR_IZR_INZ, Z2Nat.id by lia. rewrite opp_IZR. ring. }
    set (n := Z.to_nat (- k)).
    rewrite <- (sin_period (x + 2 * - INR n * PI) n).
    rewrite <- (cos_period (x + 2 * - INR n * PI) n).
    split; f_equal; ring.
Qed.

(** A real is within half a turn of a whole number of turns. *)
Lemma nearest_turn (t : R) : exists k : Z, - PI < t - 2 * IZR k * PI <= PI.
Proof.
  pose proof PI_RGT_0 as Hpi.
  set (s := (t + PI) / (2 * PI)).
  destruct (archimed (- s)) as [H1 H2].
  exists (- up (- s))%Z. rewrite opp_IZR.
  assert (t = s * (2 * PI) - PI) as Ht by (unfold s; field; lra).
  rewrite Ht at 1 2. split; nra.
Qed.

End Turns.

(** X1: samples that are a whole number of colour cycles apart, that is
    [2 * PI * cycle] times an integer, are wrapped to the same value. *)
Theorem wrap_periodic (v c : R) (k : Z) :
  c <> 0 ->
  wrap (fin (v + 2 * PI * c * IZR k)) (fin c) = wrap (fin v) (fin c).
Proof.
  intros Hc. unfold wrap. destruct (Req_dec_T c 0); [contradiction |].
  f_equal. rewrite !wrap_real_unfold.
  replace ((v + 2 * PI * c * IZR k) / c) with (v / c + 2 * IZR k * PI)
    by (field; assumption).
  destruct (period_Z (v / c) k) as [-> ->]. reflexivity.
Qed.

Lemma wrap_periodic_witness :
  3 <> 0 /\ wrap (fin (1 + 2 * PI * 3 * IZR 5)) (fin 3) = wrap (fin 1) (fin 3).
Proof.
  assert (3 <> 0) as H by lra.
  split; [exact H | exact (wrap_periodic 1 3 5 H)].
Defined.

(** X2: for a positive cycle the wrapped value differs from [v / cycle]
    by a whole number of turns, and it is the one such value in
    (-PI, PI]: the transform keeps the angle and loses only the count of
    turns. *)
Theorem wrap_whole_turns (v c : R) :
  0 < c ->
  exists k : Z,
    wrap (fin v) (fin c) = fin (v / c - 2 * IZR k * PI) /\
    - PI < v / c - 2 * IZR k * PI <= PI /\
    (forall k' : Z, - PI < v / c - 2 * IZR k' * PI <= PI -> k' = k).
Proof.
  intros Hc. pose proof PI_RGT_0 as Hpi.
  destruct (nearest_turn (v / c)) as [k Hk].
  exists k. split; [| split; [exact Hk |]].
  - unfold wrap. destruct (Req_dec_T c 0); [lra |].
    f_equal. rewrite wrap_real_angle by assumption.
    destruct (period_Z (v / c) (- k)) as [Hs Hco].
    rewrite opp_IZR in Hs, Hco.
    replace (v / c + 2 * - IZR k * PI) with (v / c - 2 * IZR k * PI)
      in Hs, Hco by ring.
    rewrite <- Hs, <- Hco. now apply arctan2_sin_cos.
  - intros k' Hk'.
    assert (IZR k' - IZR k < 1) as H1 by nra.
    assert (IZR k - IZR k' < 1) as H2 by nra.
    rewrite <- minus_IZR in H1, H2.
    apply (lt_IZR _ 1) in H1. apply (lt_IZR _ 1) in H2. lia.
Qed.

Lemma wrap_whole_turns_witness :
  0 < 3 /\ exists k : Z, wrap (fin 100) (fin 3) = fin (100 / 3 - 2 * IZR k * PI).
Proof.
  assert (0 < 3) as H by lra.
  split; [exact H |].
  destruct (wrap_whole_turns 100 3 H) as (k & Hk & _).
  exists k. exact Hk.
Defined.

(** X3: a negative cycle turns every angle by half a turn: the value is
    the wrapped angle of [v / cycle + PI]. *)
Theorem wrap_negative_cycle (v c : R) :
  c < 0 ->
  wrap (fin v) (fin c)
  = fin (Np.arctan2 (sin (v / c + PI)) (cos (v / c + PI))).
Proof.
  intros Hc. unfold wrap. destruct (Req_dec_T c 0); [lra |].
  f_equal. rewrite wrap_real_unfold, neg_sin, neg_cos.
  rewrite <- (arctan2_scale (- c) (- sin (v / c)) (- cos (v / c))) by lra.
  f_equal; ring.
Qed.

Lemma wrap_negative_cycle_witness :
  -3 < 0 /\
  wrap (fin 1) (fin (-3))
  = fin (Np.arctan2 (sin (1 / -3 + PI)) (cos (1 / -3 + PI))).
Proof.
  assert (-3 < 0) as H by lra.
  split; [exact H | exact (wrap_negative_cycle 1 (-3) H)].
Defined.

(** ** Automatic colour range: edge cases *)

Section RangeEdges.

Import Np.

Lemma quantile_zero (a : list R) : quantile a 0 = nth 0 (sort a) 0.
Proof.
  unfold quantile. rewrite Rmult_0_l.
  rewrite (floor_unique 0 0) by (cbn; lra). cbn [INR]. ring.
Qed.

Lemma quantile_one (a : list R) :
  quantile a 1 = nth (List.length a - 1) (sort a) 0.
Proof.
  unfold quantile. rewrite Rmult_1_l.
  rewrite (floor_unique (INR (List.length a - 1)) (List.length a - 1)) by lra.
  ring.
Qed.

Lemma fold_min_In (t : list R) (x : R) : In (fold_left Rmin t x) (x :: t).
Proof.
  revert x. induction t as [| y t IH]; intros x; [now left |].
  cbn [fold_left]. destruct (IH (Rmin x y)) as [H | H].
  - rewrite <- H. apply Rmin_case; [now left | right; now left].
  - right. now right.
Qed.

Lemma fold_max_In (t : list R) (x : R) : In (fold_left Rmax t x) (x :: t).
Proof.
  revert x. induction t as [| y t IH]; intros x; [now left |].
  cbn [fold_left]. destruct (IH (Rmax x y)) as [H | H].
  - rewrite <- H. apply Rmax_case; [now left | right; now left].
  - right. now right.
Qed.

(** The first rank of the sorted values holds the least of them, the last
    rank the greatest. *)
Lemma sort_first (x : R) (t : list R) :
  nth 0 (sort (x :: t)) 0 = fold_left Rmin t x.
Proof.
  pose proof (sort_sorted (x :: t)) as Hs.
  pose proof (sort_perm (x :: t)) as Hp.
  pose proof (sort_length (x :: t)) as Hl. cbn [List.length] in Hl.
  apply Rle_antisym.
  - destruct (In_nth _ _ 0 (Permutation_in _ Hp (fold_min_In t x)))
      as (i & Hi & <-).
    apply sorted_nth; [assumption | lia | assumption].
  - apply fold_min_le. eapply Permutation_in; [symmetry; exact Hp |].
    apply nth_In. lia.
Qed.

Lemma sort_last (x : R) (t : list R) :
  nth (List.length t) (sort (x :: t)) 0 = fold_left Rmax t x.
Proof.
  pose proof (sort_sorted (x :: t)) as Hs.
  pose proof (sort_perm (x :: t)) as Hp.
  pose proof (sort_length (x :: t)) as Hl. cbn [List.length] in Hl.
  apply Rle_antisym.
  - apply fold_max_ge. eapply Permutation_in; [symmetry; exact Hp |].
    apply nth_In. lia.
  - destruct (In_nth _ _ 0 (Permutation_in _ Hp (fold_max_In t x)))
      as (i & Hi & <-).
    apply sorted_nth; [assumption | lia | lia].
Qed.

(** Two sorted lists with the same elements are the same list. *)
Lemma sorted_perm_eq (l l' : list R) :
  StronglySorted Rle l -> StronglySorted Rle l' -> Permutation l l' ->
  l = l'.
Proof.
  intros Hl. revert l'. induction Hl as [| x t Ht IH Hx]; intros l' Hl' Hp.
  - apply Permutation_nil in Hp. now subst.
  - destruct Hl' as [| y t' Ht' Hy].
    + apply Permutation_sym, Permutation_nil in Hp. discriminate.
    + rewrite Forall_forall in Hx, Hy.
      assert (x = y) as <-.
      { apply Rle_antisym.
        - destruct (Permutation_in y (Permutation_sym Hp) (or_introl eq_refl))
            as [-> | H]; [lra | now apply Hx].
        - destruct (Permutation_in x Hp (or_introl eq_refl))
            as [-> | H]; [lra | now apply Hy]. }
      f_equal. apply IH; [assumption |].
      eapply Permutation_cons_inv; exact Hp.
Qed.

Lemma remove_nan_perm (a a' : list float) :
  Permutation a a' -> Permutation (remove_nan a) (remove_nan a').
Proof.
  induction 1 as [| f l l' Hp IH | f f' l | l l' l'' H1 IH1 H2 IH2].
  - constructor.
  - destruct f; cbn; [assumption | now constructor].
  - destruct f, f'; cbn; try reflexivity. constructor.
  - now transitivity (remove_nan l').
Qed.

Lemma quantile_perm (a a' : list R) (q : R) :
  Permutation a a' -> quantile a q = quantile a' q.
Proof.
  intros Hp. unfold quantile.
  rewrite (Permutation_length Hp).
  rewrite (sorted_perm_eq (sort a) (sort a')); [reflexivity | | |].
  - apply sort_sorted.
  - apply sort_sorted.
  - rewrite <- !sort_perm. exact Hp.
Qed.

Lemma nanpercentile_perm (a a' : list float) (q : float) :
  Permutation a a' -> nanpercentile a q = nanpercentile a' q.
Proof.
  intros Hp. apply remove_nan_perm in Hp. unfold nanpercentile.
  destruct q as [| p]; [reflexivity |].
  destruct (Rleb 0 (p / 100) && Rleb (p / 100) 1); [| reflexivity].
  destruct (remove_nan a) as [| x t] eqn:Ha,
           (remove_nan a') as [| x' t'] eqn:Ha'.
  - reflexivity.
  - apply Permutation_nil in Hp. discriminate.
  - apply Permutation_sym, Permutation_nil in Hp. discriminate.
  - now rewrite (quantile_perm _ _ _ Hp).
Qed.

Lemma nanpercentile_invalid (a : list float) (q : float) :
  ~ (exists p, q = fin p /\ 0 <= p <= 100) ->
  nanpercentile a q = Py.raise Py.ValueError.
Proof.
  intros H. unfold nanpercentile. destruct q as [| p]; [reflexivity |].
  destruct (Rleb 0 (p / 100)) eqn:H0; [| reflexivity].
  destruct (Rleb (p / 100) 1) eqn:H1; [| reflexivity].
  exfalso. apply H. exists p. apply Rleb_true in H0, H1.
  split; [reflexivity | lra].
Qed.

End RangeEdges.

(** X4: with [--auto_crange 100] and no bound given, the colour range is
    the full range of the samples that are not NaN: [cmin] is their
    minimum and [cmax] their maximum. *)
Theorem auto_range_full (data : list float) :
  (exists x, In (fin x) data) ->
  exists mn mx : R,
    Np.nanmin data = fin mn /\ Np.nanmax data = fin mx /\
    set_color_range None None (fin 100) data = Py.ok (true, fin mn, fin mx).
Proof.
  intros [x Hx]. apply remove_nan_In in Hx.
  assert (Np.remove_nan data <> []) as Hne
    by (intros E; rewrite E in Hx; destruct Hx).
  rewrite auto_range_value by (assumption || lra).
  unfold Np.nanmin, Np.nanmax.
  destruct (Np.remove_nan data) as [| y t]; [congruence |].
  exists (fold_left Rmin t y), (fold_left Rmax t y).
  split; [reflexivity |]. split; [reflexivity |].
  apply range_eq.
  - replace ((100 - 100) / 100) with 0 by lra.
    rewrite quantile_zero. apply sort_first.
  - replace (100 / 100) with 1 by lra.
    rewrite quantile_one.
    replace (List.length (y :: t) - 1)%nat with (List.length t)
      by (cbn [List.length]; lia).
    apply sort_last.
Qed.

Lemma auto_range_full_witness :
  exists mn mx : R,
    Np.nanmin [fin 2; nan; fin 1] = fin mn /\
    Np.nanmax [fin 2; nan; fin 1] = fin mx /\
    set_color_range None None (fin 100) [fin 2; nan; fin 1]
    = Py.ok (true, fin mn, fin mx).
Proof.
  apply auto_range_full. exists 2. cbn. tauto.
Defined.

(** X5: when all the samples that are not NaN have the same value [v],
    and there is one, the automatic range is [cmin = cmax = v] for every
    percentage in [0, 100], however many NaN samples there are. *)
Theorem constant_raster_range (data : list float) (v p : R) :
  In (fin v) data ->
  (forall x, In (fin x) data -> x = v) ->
  0 <= p <= 100 ->
  set_color_range None None (fin p) data = Py.ok (true, fin v, fin v).
Proof.
  intros Hv Hall Hp.
  assert (Np.remove_nan data <> []) as Hne.
  { intros E. apply remove_nan_In in Hv. rewrite E in Hv. destruct Hv. }
  assert (forall x, In x (Np.remove_nan data) -> v <= x <= v) as Hb.
  { intros x Hx. apply remove_nan_In, Hall in Hx. lra. }
  rewrite auto_range_value by assumption.
  pose proof (quantile_bounded _ v v ((100 - p) / 100) Hne Hb ltac:(lra)).
  pose proof (quantile_bounded _ v v (p / 100) Hne Hb ltac:(lra)).
  apply range_eq; lra.
Qed.

Lemma constant_raster_range_witness :
  set_color_range None None (fin 80) [nan; fin 7; fin 7; nan]
  = Py.ok (true, fin 7, fin 7).
Proof.
  apply constant_raster_range.
  - cbn. tauto.
  - cbn. intros x [H | [H | [H | [H | []]]]];
      try discriminate; now injection H.
  - lra.
Defined.

(** X6: when every sample is NaN, or there is none, the automatic
    bounds are both NaN; no exception is raised. *)
Theorem all_nan_range (data : list float) (p : R) :
  (forall f, In f data -> f = nan) ->
  0 <= p <= 100 ->
  set_color_range None None (fin p) data = Py.ok (true, nan, nan).
Proof.
  intros Hall Hp.
  assert (Np.remove_nan data = []) as He.
  { destruct (Np.remove_nan data) as [| x t] eqn:E; [reflexivity |].
    assert (In x (Np.remove_nan data)) as Hx by (rewrite E; now left).
    apply remove_nan_In, Hall in Hx. discriminate. }
  unfold set_color_range, Np.nanpercentile. cbn [Np.sub]. rewrite He.
  assert (Np.Rleb 0 ((100 - p) / 100) = true) as -> by (apply Rleb_true; lra).
  assert (Np.Rleb ((100 - p) / 100) 1 = true) as -> by (apply Rleb_true; lra).
  assert (Np.Rleb 0 (p / 100) = true) as -> by (apply Rleb_true; lra).
  assert (Np.Rleb (p / 100) 1 = true) as -> by (apply Rleb_true; lra).
  reflexivity.
Qed.

Lemma all_nan_range_witness :
  set_color_range None None (fin 99) [nan; nan] = Py.ok (true, nan, nan).
Proof.
  apply all_nan_range.
  - cbn. intros f [<- | [<- | []]]; reflexivity.
  - lra.
Defined.

(** X7: a percentage outside [0, 100], or NaN, makes the colour-range
    block raise [ValueError] as soon as one bound is left to be computed;
    it is harmless only when both bounds are given. *)
Theorem bad_percentile_raises (lo hi : option float) (p : float)
    (data : list float) :
  ~ (exists x, p = fin x /\ 0 <= x <= 100) ->
  (lo = None \/ hi = None <->
   set_color_range lo hi p data = Py.raise Py.ValueError).
Proof.
  intros Hbad.
  assert (~ (exists x, Np.sub (fin 100) p = fin x /\ 0 <= x <= 100)) as Hbad'.
  { intros (x & Hx & Hr). apply Hbad. destruct p as [| y]; [discriminate |].
    cbn in Hx. injection Hx as <-. exists y. split; [reflexivity | lra]. }
  unfold set_color_range.
  destruct lo as [a |], hi as [b |]; cbn [Py.bind].
  - split; [intros [H | H]; discriminate | discriminate].
  - rewrite (nanpercentile_invalid _ _ Hbad). cbn. tauto.
  - rewrite (nanpercentile_invalid _ _ Hbad'). cbn. tauto.
  - rewrite (nanpercentile_invalid _ _ Hbad'). cbn. tauto.
Qed.

Lemma bad_percentile_raises_witness :
  set_color_range None (Some (fin 1)) (fin 150) [fin 0; fin 1]
  = Py.raise Py.ValueError.
Proof.
  apply (bad_percentile_raises None (Some (fin 1)) (fin 150) [fin 0; fin 1]).
  - intros (x & Hx & Hr). injection Hx as <-. lra.
  - now left.
Defined.

(** X8: the colour range depends on the samples only, not on their
    order: any rearrangement of the raster gives the same bounds. *)
Theorem range_order_free (lo hi : option float) (p : float)
    (data data' : list float) :
  Permutation data data' ->
  set_color_range lo hi p data = set_color_range lo hi p data'.
Proof.
  intros Hp. unfold set_color_range.
  now rewrite !(nanpercentile_perm _ _ _ Hp).
Qed.

Lemma range_order_free_witness :
  set_color_range None None (fin 99) [fin 2; nan; fin 1]
  = set_color_range None None (fin 99) [nan; fin 1; fin 2].
Proof.
  apply range_order_free.
  apply perm_trans with [nan; fin 2; fin 1].
  - apply perm_swap.
  - apply perm_skip, perm_swap.
Defined.

(** ** The option loop *)

Section OptionLoop.

Local Open Scope string_scope.

(** The loop over two lists of options, one after the other. *)
Lemma read_opts_app (E : env) (pre post : list Getopt.opt) (g : globals) :
  read_opts E (pre ++ post) g
  = match read_opts E pre g with
    | next g' => read_opts E post g'
    | stop r => stop r
    end.
Proof.
  revert g. induction pre as [| [o a] pre IH]; intros g; [reflexivity |].
  cbn [app read_opts]. unfold to_float.
  repeat break_if; try reflexivity; try apply IH;
    destruct (float_of_string E a); try reflexivity; apply IH.
Qed.

Lemma supplied_cons (o o' a : string) (opts : list Getopt.opt) (w : word) :
  supplied o ((o', a) :: opts) w
  = supplied o opts (if String.eqb o' o then str a else w).
Proof. reflexivity. Qed.

Lemma supplied_default (o : string) (opts : list Getopt.opt) (w : word) :
  supplied o opts w
  = match supplied o opts empty_list with
    | empty_list => w
    | str s => str s
    end.
Proof.
  revert w. induction opts as [| [o' a] opts IH]; intros w; [reflexivity |].
  rewrite !supplied_cons.
  destruct (String.eqb o' o).
  - rewrite (IH (str a)).
    destruct (supplied o opts empty_list); reflexivity.
  - apply IH.
Qed.

End OptionLoop.



(** X10: an argument of [--cmin], [--cmax], [--auto_crange] or [--cycle]
    that [float] cannot read is not reported as a usage error: the
    [ValueError] is not caught, so the run ends with a traceback and exit
    status 1, before any file is looked at. *)
Theorem bad_number_traceback (E : env) (args : list string)
    (pre post : list Getopt.opt) (o a : string) (rest : list string)
    (g : globals) :
  Getopt.getopt args shortopts longopts
  = Getopt.parsed (pre ++ (o, a) :: post, rest) ->
  In o ["--cmin"; "--cmax"; "--auto_crange"; "--cycle"]%string ->
  float_of_string E a = None ->
  read_opts E pre defaults = next g ->
  main E args
  = {| ending := traceback Py.ValueError; stdout := ""; stderr := "";
       calls := [] |} /\
  exit_code (ending (main E args)) = 1%Z.
Proof.
  intros Hg Ho Ha Hpre.
  assert (main E args
          = {| ending := traceback Py.ValueError; stdout := ""; stderr := "";
               calls := [] |}) as ->.
  { unfold main, read_options. rewrite Hg, read_opts_app, Hpre.
    cbn in Ho. destruct Ho as [<- | [<- | [<- | [<- | []]]]];
      cbn; unfold to_float; rewrite Ha; reflexivity. }
  split; reflexivity.
Qed.

Lemma bad_number_traceback_witness :
  exit_code (ending (main demo_env
    ["-i"; "a.bin"; "-p"; "a.par"; "--cycle"; "three"]%string)) = 1%Z.
Proof.
  apply (bad_number_traceback demo_env _
           [("-i", "a.bin"); ("-p", "a.par")]%string [] "--cycle" "three" []
           {| infile := str "a.bin"; parfile := str "a.par";
              cmap := "SCM5.roma_r"; cmin := None; cmax := None;
              auto_crange := fin 99; cycle := fin 3; endian := little;
              pngname := empty_list |}).
  - reflexivity.
  - cbn. tauto.
  - reflexivity.
  - reflexivity.
Defined.

Section LastWins.

Local Open Scope string_scope.

(** One step of the proofs below: the loop on a list that starts with an
    option other than the one looked at. *)
Ltac other_option IH H a :=
  unfold to_float, uncaught in H;
  repeat break_if; try discriminate;
  try (rewrite (IH _ H); reflexivity);
  destruct (float_of_string _ a); try discriminate;
  rewrite (IH _ H); reflexivity.

Lemma read_opts_parfile (E : env) (opts : list Getopt.opt) (g g' : globals) :
  read_opts E opts g = next g' ->
  parfile g' = supplied "-p" opts (parfile g).
Proof.
  revert g. induction opts as [| [o a] opts IH]; intros g H.
  - injection H as <-. reflexivity.
  - cbn [read_opts] in H. rewrite supplied_cons.
    destruct (String.eqb o "-p") eqn:Hp.
    + apply String.eqb_eq in Hp. subst o. cbn in H. now rewrite (IH _ H).
    + other_option IH H a.
Qed.

Lemma read_opts_cmap (E : env) (opts : list Getopt.opt) (g g' : globals) :
  read_opts E opts g = next g' ->
  str (cmap g') = supplied "-c" opts (str (cmap g)).
Proof.
  revert g. induction opts as [| [o a] opts IH]; intros g H.
  - injection H as <-. reflexivity.
  - cbn [read_opts] in H. rewrite supplied_cons.
    destruct (String.eqb o "-c") eqn:Hp.
    + apply String.eqb_eq in Hp. subst o. cbn in H. now rewrite (IH _ H).
    + other_option IH H a.
Qed.

Lemma read_opts_endian (E : env) (opts : list Getopt.opt) (g g' : globals) :
  read_opts E opts g = next g' ->
  endian g'
  = if existsb (fun oa => String.eqb (fst oa) "--bigendian") opts
    then big else endian g.
Proof.
  revert g. induction opts as [| [o a] opts IH]; intros g H.
  - injection H as <-. reflexivity.
  - cbn [read_opts] in H. cbn [existsb fst].
    destruct (String.eqb o "--bigendian") eqn:Hp.
    + apply String.eqb_eq in Hp. subst o. cbn in H. rewrite (IH _ H).
      cbn [endian orb].
      match goal with
      | |- context [existsb ?f opts] => destruct (existsb f opts)
      end; reflexivity.
    + cbn [orb]. other_option IH H a.
Qed.

(** The value a numeric option leaves: the float read from its last
    argument, or the value [d] the variable had. *)
Lemma read_opts_number (E : env) (o : string)
    (get : globals -> option float) (opts : list Getopt.opt) :
  (forall (o' a : string) (rest : list Getopt.opt) (g g' : globals),
      read_opts E ((o', a) :: rest) g = next g' ->
      exists g1, read_opts E rest g1 = next g' /\
                 get g1 = if String.eqb o' o then float_of_string E a
                          else get g) ->
  forall g g', read_opts E opts g = next g' ->
  get g' = match supplied o opts empty_list with
           | empty_list => get g
           | str a => float_of_string E a
           end.
Proof.
  intros Hstep. induction opts as [| [o' a] opts IH]; intros g g' H.
  - injection H as <-. reflexivity.
  - destruct (Hstep _ _ _ _ _ H) as (g1 & H1 & Hg1).
    rewrite (IH _ _ H1), supplied_cons, Hg1.
    destruct (String.eqb o' o).
    + rewrite (supplied_default o opts (str a)).
      destruct (supplied o opts empty_list); reflexivity.
    + reflexivity.
Qed.

Ltac number_step :=
  intros o' a rest g g' H; cbn [read_opts] in H;
  unfold to_float, uncaught in H;
  repeat break_if; try discriminate;
  repeat match goal with
         | Hq : String.eqb _ _ = true |- _ =>
             apply String.eqb_eq in Hq; try discriminate Hq; subst
         end;
  try discriminate;
  try (destruct (float_of_string _ a) eqn:?; [| discriminate]);
  eexists; (split; [exact H |]); cbn; congruence.

Lemma read_opts_cmin (E : env) (opts : list Getopt.opt) (g g' : globals) :
  read_opts E opts g = next g' ->
  cmin g' = match supplied "--cmin" opts empty_list with
            | empty_list => cmin g
            | str a => float_of_string E a
            end.
Proof.
  revert g g'. apply (read_opts_number E "--cmin" cmin). number_step.
Qed.

Lemma read_opts_cmax (E : env) (opts : list Getopt.opt) (g g' : globals) :
  read_opts E opts g = next g' ->
  cmax g' = match supplied "--cmax" opts empty_list with
            | empty_list => cmax g
            | str a => float_of_string E a
            end.
Proof.
  revert g g'. apply (read_opts_number E "--cmax" cmax). number_step.
Qed.

Lemma read_opts_auto_crange (E : env) (opts : list Getopt.opt)
    (g g' : globals) :
  read_opts E opts g = next g' ->
  Some (auto_crange g')
  = match supplied "--auto_crange" opts empty_list with
    | empty_list => Some (auto_crange g)
    | str a => float_of_string E a
    end.
Proof.
  revert g g'.
  apply (read_opts_number E "--auto_crange" (fun g => Some (auto_crange g))).
  number_step.
Qed.

Lemma read_opts_cycle (E : env) (opts : list Getopt.opt) (g g' : globals) :
  read_opts E opts g = next g' ->
  Some (cycle g')
  = match supplied "--cycle" opts empty_list with
    | empty_list => Some (cycle g)
    | str a => float_of_string E a
    end.
Proof.
  revert g g'.
  apply (read_opts_number E "--cycle" (fun g => Some (cycle g))).
  number_step.
Qed.

End LastWins.

(** X11: when the option loop runs to its end, every variable holds the
    argument of the last occurrence of its option, read as a float for the
    four numeric ones, and its default when the option does not occur;
    the byte order is big-endian exactly when [--bigendian] occurs. *)
Theorem last_option_wins (E : env) (opts : list Getopt.opt) (g : globals) :
  read_opts E opts defaults = next g ->
  infile g = supplied "-i" opts empty_list /\
  parfile g = supplied "-p" opts empty_list /\
  pngname g = supplied "--png" opts empty_list /\
  str (cmap g) = supplied "-c" opts (str "SCM5.roma_r") /\
  cmin g = match supplied "--cmin" opts empty_list with
           | empty_list => None
           | str a => float_of_string E a
           end /\
  cmax g = match supplied "--cmax" opts empty_list with
           | empty_list => None
           | str a => float_of_string E a
           end /\
  Some (auto_crange g)
  = match supplied "--auto_crange" opts empty_list with
    | empty_list => Some (fin 99)
    | str a => float_of_string E a
    end /\
  Some (cycle g)
  = match supplied "--cycle" opts empty_list with
    | empty_list => Some (fin 3)
    | str a => float_of_string E a
    end /\
  endian g
  = if existsb (fun oa => String.eqb (fst oa) "--bigendian") opts
    then big else little.
Proof.
  intros H.
  split; [exact (read_opts_infile _ _ _ _ H) |].
  split; [exact (read_opts_parfile _ _ _ _ H) |].
  split; [exact (read_opts_pngname _ _ _ _ H) |].
  split; [exact (read_opts_cmap _ _ _ _ H) |].
  split; [exact (read_opts_cmin _ _ _ _ H) |].
  split; [exact (read_opts_cmax _ _ _ _ H) |].
  split; [exact (read_opts_auto_crange _ _ _ _ H) |].
  split; [exact (read_opts_cycle _ _ _ _ H) |].
  exact (read_opts_endian _ _ _ _ H).
Qed.

Lemma last_option_wins_witness :
  exists g,
    read_opts demo_env
      [("-c", "jet"); ("--cmin", "0"); ("-c", "insar"); ("--cmin", "1");
       ("--bigendian", "")]%string defaults = next g /\
    cmap g = "insar"%string /\ cmin g = Some (fin 1) /\ endian g = big.
Proof.
  eexists. split; [reflexivity |].
  destruct (last_option_wins demo_env
              [("-c", "jet"); ("--cmin", "0"); ("-c", "insar");
               ("--cmin", "1"); ("--bigendian", "")]%string _ eq_refl)
    as (_ & _ & _ & Hc & Hm & _ & _ & _ & He).
  split; [exact (f_equal text_of Hc) |]. split; [exact Hm | exact He].
Defined.

(** X12: the four checks on the two paths are made in order, and the
    first that fails decides the message: [-i] missing or empty, the input
    file absent, [-p] missing or empty, the parameter file absent.  Each
    ends the run with exit code 2, the message between [ERROR:] and the
    hint about [-h], nothing on the output stream and nothing drawn. *)
Theorem usage_errors (E : env) (args : list string)
    (opts : list Getopt.opt) (rest : list string) (g : globals) :
  Getopt.getopt args shortopts longopts = Getopt.parsed (opts, rest) ->
  read_opts E opts defaults = next g ->
  let i := supplied "-i" opts empty_list in
  let p := supplied "-p" opts empty_list in
  let failed (msg : string) :=
    main E args
    = {| ending := exited 2; stdout := "";
         stderr := (nl ++ "ERROR:  " ++ msg ++ nl ++ nl
                    ++ "For help, use -h or --help." ++ nl ++ nl)%string;
         calls := [] |} in
  (truthy i = false ->
   failed "No image file given, -i is not optional!"%string) /\
  (truthy i = true -> path_exists E (text_of i) = false ->
   failed ("No " ++ text_of i ++ " exists!")%string) /\
  (truthy i = true -> path_exists E (text_of i) = true ->
   truthy p = false ->
   failed "No par file given, -p is not optional!"%string) /\
  (truthy i = true -> path_exists E (text_of i) = true ->
   truthy p = true -> path_exists E (text_of p) = false ->
   failed ("No " ++ text_of p ++ " exists!")%string) /\
  (truthy i = true -> path_exists E (text_of i) = true ->
   truthy p = true -> path_exists E (text_of p) = true ->
   read_options E args = next g).
Proof.
  intros Hg Hr i p failed. subst failed. cbv beta.
  unfold main, read_options. rewrite Hg, Hr.
  rewrite (read_opts_infile _ _ _ _ Hr), (read_opts_parfile _ _ _ _ Hr).
  change (infile defaults) with empty_list.
  change (parfile defaults) with empty_list.
  fold i. fold p.
  repeat split.
  - intros ->. reflexivity.
  - intros -> ->. reflexivity.
  - intros -> -> ->. reflexivity.
  - intros -> -> -> ->. reflexivity.
  - intros -> -> -> ->. reflexivity.
Qed.

Lemma usage_errors_witness :
  main demo_env ["-i"; ""; "-p"; "nowhere.par"]%string
  = {| ending := exited 2; stdout := "";
       stderr := (nl ++ "ERROR:  No image file given, -i is not optional!"
                  ++ nl ++ nl ++ "For help, use -h or --help." ++ nl
                  ++ nl)%string;
       calls := [] |}.
Proof.
  destruct (usage_errors demo_env ["-i"; ""; "-p"; "nowhere.par"]%string
              [("-i", ""); ("-p", "nowhere.par")]%string []
              {| infile := str ""; parfile := str "nowhere.par";
                 cmap := "SCM5.roma_r"; cmin := None; cmax := None;
                 auto_crange := fin 99; cycle := fin 3; endian := little;
                 pngname := empty_list |} eq_refl eq_refl) as (H & _).
  apply H. reflexivity.
Defined.

(** ** Words after the options *)

Section Positional.

Local Open Scope string_scope.

Lemma do_longs_app (opts : list Getopt.opt) (o : string)
    (lo args more : list string) (opts' : list Getopt.opt)
    (args' : list string) :
  Getopt.do_longs opts o lo args = Getopt.parsed (opts', args') ->
  Getopt.do_longs opts o lo (args ++ more)
  = Getopt.parsed (opts', (args' ++ more)%list).
Proof.
  unfold Getopt.do_longs.
  destruct (Py.index_char "=" o) as [i |];
    destruct (Getopt.long_has_args _ lo) as [[[] o'] | msg];
    try discriminate; try destruct args as [| a args];
    intros H; try discriminate; injection H as <- <-; reflexivity.
Qed.

Lemma do_shorts_app (optstring so : string) (opts : list Getopt.opt)
    (args more : list string) (opts' : list Getopt.opt)
    (args' : list string) :
  Getopt.do_shorts opts optstring so args = Getopt.parsed (opts', args') ->
  Getopt.do_shorts opts optstring so (args ++ more)
  = Getopt.parsed (opts', (args' ++ more)%list).
Proof.
  revert opts. induction optstring as [| c s IH]; intros opts H.
  - injection H as <- <-. reflexivity.
  - cbn [Getopt.do_shorts] in *.
    destruct (Getopt.short_has_arg c so) as [[] | msg]; try discriminate.
    + destruct s; [destruct args as [| a args] |]; try discriminate;
        injection H as <- <-; reflexivity.
    + now apply IH.
Qed.

(** When the loop uses up a list of words, it stops in the same way at a
    plain word put after them. *)
Lemma loop_app (fuel : nat) (opts : list Getopt.opt) (pre : list string)
    (so : string) (lo : list string) (opts' : list Getopt.opt)
    (w : string) (post : list string) :
  Getopt.loop fuel opts pre so lo = Some (Getopt.parsed (opts', [])) ->
  plain_word w = true ->
  Getopt.loop fuel opts (pre ++ w :: post) so lo
  = Some (Getopt.parsed (opts', w :: post)).
Proof.
  intros H Hw. revert opts pre H.
  induction fuel as [| fuel IH]; intros opts pre H.
  - destruct pre as [| a rest].
    + injection H as <-. cbn [app Getopt.loop].
      unfold plain_word in Hw. now rewrite Hw.
    + cbn [app Getopt.loop] in *.
      destruct (negb (Py.startswith a "-") || String.eqb a "-");
        [discriminate |].
      destruct (String.eqb a "--"); [| discriminate].
      now injection H as <- ->.
  - destruct pre as [| a rest].
    + injection H as <-. cbn [app Getopt.loop].
      unfold plain_word in Hw. now rewrite Hw.
    + cbn [app Getopt.loop] in *.
      destruct (negb (Py.startswith a "-") || String.eqb a "-");
        [discriminate |].
      destruct (String.eqb a "--"); [now injection H as <- -> |].
      destruct (Py.startswith a "--").
      * destruct (Getopt.do_longs opts (Py.drop 2 a) lo rest)
          as [[opts1 args1] | msg] eqn:Hd; [| discriminate].
        rewrite (do_longs_app _ _ _ _ _ _ _ Hd). now apply IH.
      * destruct (Getopt.do_shorts opts (Py.drop 1 a) so rest)
          as [[opts1 args1] | msg] eqn:Hd; [| discriminate].
        rewrite (do_shorts_app _ _ _ _ _ _ _ Hd). now apply IH.
Qed.

Lemma loop_more_fuel (fuel : nat) (opts : list Getopt.opt)
    (args : list string) (so : string) (lo : list string)
    (r : Getopt.res (list Getopt.opt * list string)) (n : nat) :
  Getopt.loop fuel opts args so lo = Some r ->
  Getopt.loop (fuel + n) opts args so lo = Some r.
Proof.
  revert opts args. induction fuel as [| fuel IH]; intros opts args H.
  - destruct args as [| a rest]; [destruct n; exact H |].
    cbn [Nat.add]. cbn [Getopt.loop] in H.
    destruct n; cbn [Getopt.loop];
      destruct (negb (Py.startswith a "-") || String.eqb a "-");
      try exact H; destruct (String.eqb a "--"); try exact H; discriminate.
  - destruct args as [| a rest]; [exact H |].
    cbn [Nat.add Getopt.loop] in *.
    destruct (negb (Py.startswith a "-") || String.eqb a "-"); [exact H |].
    destruct (String.eqb a "--"); [exact H |].
    destruct (if Py.startswith a "--"
              then Getopt.do_longs opts (Py.drop 2 a) lo rest
              else Getopt.do_shorts opts (Py.drop 1 a) so rest)
      as [[opts1 args1] | msg]; [now apply IH | exact H].
Qed.

Lemma getopt_stops_at_word (pre : list string) (so : string)
    (lo : list string) (opts : list Getopt.opt) (w : string)
    (post : list string) :
  Getopt.getopt pre so lo = Getopt.parsed (opts, []) ->
  plain_word w = true ->
  Getopt.getopt (pre ++ w :: post) so lo = Getopt.parsed (opts, w :: post).
Proof.
  intros H Hw.
  pose proof (getopt_loop pre so lo) as Hl. rewrite H in Hl.
  pose proof (loop_app _ _ _ _ _ _ w post Hl Hw) as Hl'.
  apply (loop_more_fuel _ _ _ _ _ _ (List.length (w :: post))) in Hl'.
  rewrite <- length_app in Hl'.
  pose proof (getopt_loop (pre ++ w :: post) so lo) as Hl2.
  rewrite Hl' in Hl2. now injection Hl2.
Qed.

End Positional.

(** X13: the options end at the first word that does not start with a
    dash (or is the dash alone): that word and everything after it, options
    included, change nothing to the run. *)
Theorem words_after_options_ignored (E : env) (pre : list string)
    (opts : list Getopt.opt) (w : string) (post : list string) :
  Getopt.getopt pre shortopts longopts = Getopt.parsed (opts, []) ->
  plain_word w = true ->
  main E (pre ++ w :: post) = main E pre.
Proof.
  intros H Hw. unfold main, read_options.
  now rewrite (getopt_stops_at_word _ _ _ _ _ post H Hw), H.
Qed.

Lemma words_after_options_ignored_witness :
  main demo_env ["-i"; "a.bin"; "extra"; "-p"; "a.par"]%string
  = main demo_env ["-i"; "a.bin"]%string.
Proof.
  apply (words_after_options_ignored demo_env ["-i"; "a.bin"]%string
           [("-i", "a.bin")]%string "extra" ["-p"; "a.par"]%string);
    reflexivity.
Defined.

(** ** What a run draws *)

Section Drawing.

Local Open Scope string_scope.

Lemma read_opts_stop_out (E : env) (opts : list Getopt.opt) (g : globals)
    (r : run) :
  read_opts E opts g = stop r ->
  stdout r = "" \/ ending r = exited 0.
Proof.
  revert g. induction opts as [| [o a] opts IH]; intros g H.
  - discriminate.
  - cbn [read_opts] in H. unfold to_float, uncaught in H.
    repeat break_if;
      try (injection H as <-; cbn; tauto);
      try (eapply IH; eassumption);
      destruct (float_of_string E a);
      try (injection H as <-; cbn; tauto);
      eapply IH; eassumption.
Qed.

Lemma set_cmap_registered (E : env) (name : string) (c : colormap)
    (cs : list plt_call) :
  set_cmap E name = next (c, cs) ->
  cs = (if is_insar c then [plt_register_cmap "insar"] else []) /\
  (is_insar c = true <-> name = "insar").
Proof.
  intros H. split; [| exact (proj2 (proj2 (proj2 (set_cmap_next _ _ _ _ H))))].
  unfold set_cmap, uncaught in H.
  destruct (Py.startswith name "SCM5").
  - destruct (exec_defined E _); [| discriminate].
    injection H as <- <-. reflexivity.
  - destruct (String.eqb name "insar") eqn:Hi.
    + destruct (plt_raises E _); [discriminate |].
      injection H as <- <-. cbn. rewrite Hi. reflexivity.
    + injection H as <- <-. cbn. rewrite Hi. reflexivity.
Qed.

(** The data that are drawn: the samples read, wrapped when the colormap
    is [insar]. *)
Lemma resolve_data (c : colormap) (g : globals) (data d : list float)
    (clim : float * float) :
  resolve c g data = Py.ok (d, clim) ->
  d = if is_insar c then map (fun v => wrap v (cycle g)) data else data.
Proof.
  unfold resolve, insar_block. destruct (is_insar c).
  - cbn. intros H. now injection H as <- _.
  - destruct (set_color_range (cmin g) (cmax g) (auto_crange g) data)
      as [[[b lo] hi] | e]; cbn; [| discriminate].
    intros H. now injection H as <- _.
Qed.

End Drawing.

Section Failures.

Lemma prefix_of_body {A : Type} (pre post body : list A) (c z x : A) :
  pre ++ c :: post = body ++ [z] -> In x pre -> In x body.
Proof.
  revert body. induction pre as [| a pre IH]; intros body H Hx; [destruct Hx |].
  destruct body as [| b body].
  - cbn in H. injection H as _ H. now destruct pre.
  - cbn in H. injection H as -> H.
    destruct Hx as [-> | Hx]; [now left | right; now apply (IH body)].
Qed.

(** What a plot block that does not reach its end has done. *)
Lemma plot_failed (E : env) (g : globals) (c : colormap) (w l : Z)
    (d : list float) (clim : float * float) (cs : list plt_call) :
  ending (plot E g c w l d clim cs) <> finished ->
  calls (plot E g c w l d clim cs) = cs \/
  exists body z pre c0 post e,
    (forall x, In x body -> x <> plt_show /\ forall f, x <> plt_savefig f) /\
    pre ++ c0 :: post = body ++ [z] /\
    calls (plot E g c w l d clim cs) = cs ++ pre ++ [c0] /\
    plt_raises E c0 = Some e /\
    ending (plot E g c w l d clim cs) = traceback e.
Proof.
  unfold plot. destruct (w =? 0)%Z; [now left |].
  unfold save_or_show.
  set (z := if truthy (pngname g)
            then plt_savefig (text_of (pngname g)) else plt_show).
  set (out := if truthy (pngname g)
              then (nl ++ "Output: " ++ text_of (pngname g) ++ nl ++ nl)%string
              else ""%string).
  replace (if truthy (pngname g)
           then ([plt_savefig (text_of (pngname g))],
                 (nl ++ "Output: " ++ text_of (pngname g) ++ nl ++ nl)%string)
           else ([plt_show], ""%string))
    with ([z], out) by (subst z out; now destruct (truthy (pngname g))).
  match goal with
  | |- context [plt_do E ?t cs] =>
      destruct (plt_do E t cs) as [made [e |]] eqn:Hdo
  end; [| intros H; now contradiction H].
  intros _. right. apply plt_do_made in Hdo.
  destruct Hdo as (pre & c0 & post & Htodo & -> & Hr & _).
  match type of Htodo with
  | ?a ++ ?b ++ [?t] ++ [z] = _ =>
      exists (a ++ b ++ [t]), z, pre, c0, post, e
  end.
  repeat split; try assumption; try reflexivity.
  - intros ->. rewrite !in_app_iff in H. cbn in H.
    destruct (is_insar c); cbn in H;
      intuition discriminate.
  - intros f ->. rewrite !in_app_iff in H. cbn in H.
    destruct (is_insar c); cbn in H;
      intuition discriminate.
  - rewrite <- Htodo. now rewrite <- !app_assoc.
Qed.

End Failures.

(** X14: a run that does not reach its end either made no plotting call
    but the registration of the [insar] colormap, or was stopped by a
    plotting call that raised, which is then the last call made.  In both
    cases no saving and no showing was completed. *)
Theorem failed_run_draws_nothing (E : env) (args : list string) :
  ending (main E args) <> finished ->
  ((forall x, In x (calls (main E args)) -> x = plt_register_cmap "insar") \/
   (exists made c e,
       calls (main E args) = made ++ [c] /\
       plt_raises E c = Some e /\
       ending (main E args) = traceback e)) /\
  (forall x, In x (calls (main E args)) ->
             x = plt_show \/ (exists f, x = plt_savefig f) ->
             plt_raises E x <> None).
Proof.
  unfold main. intros H.
  assert (forall cs : list plt_call,
             (forall x, In x cs -> x = plt_register_cmap "insar") ->
             forall x, In x cs ->
                       x = plt_show \/ (exists f, x = plt_savefig f) ->
                       plt_raises E x <> None) as Hnone.
  { intros cs Hcs x Hx Hk. rewrite (Hcs x Hx) in Hk.
    destruct Hk as [Hk | [f Hk]]; discriminate. }
  destruct (read_options E args) as [g | r] eqn:Hro.
  { destruct (set_cmap E (cmap g)) as [[c cs] | r] eqn:Hc.
    - destruct (set_cmap_registered _ _ _ _ Hc) as [Hcs _].
      assert (forall x, In x cs -> x = plt_register_cmap "insar") as Hreg.
      { rewrite Hcs. destruct (is_insar c); cbn; intros x Hx;
          [destruct Hx as [<- | []]; reflexivity | destruct Hx]. }
      destruct (get_info_or_exit E (text_of (parfile g)) cs)
        as [[w l] | r] eqn:Hg.
      + destruct (read_img E (text_of (infile g)) l w (endian g))
          as [data | e]; [| cbn; split; [now left | now apply Hnone]].
        destruct (resolve c g data) as [[d clim] | e];
          [| cbn; split; [now left | now apply Hnone]].
        destruct (plot_failed _ _ _ _ _ _ _ _ H)
          as [-> | (body & z & pre & c0 & post & e & Hbody & Htodo & -> & Hr
                    & He)].
        * split; [now left | now apply Hnone].
        * split.
          -- right. exists (cs ++ pre), c0, e.
             rewrite <- app_assoc. auto.
          -- intros x Hx Hk. rewrite !in_app_iff in Hx. cbn in Hx.
             destruct Hx as [Hx | [Hx | [<- | []]]].
             ++ now apply (Hnone cs Hreg).
             ++ apply (prefix_of_body _ _ _ _ _ _ Htodo), Hbody in Hx.
                destruct Hx as [Hs Hf].
                destruct Hk as [-> | [f ->]];
                  [now contradiction Hs | now contradiction (Hf f)].
             ++ rewrite Hr. discriminate.
      + rewrite (proj1 (get_info_or_exit_stop _ _ _ _ Hg)).
        split; [now left | now apply Hnone].
    - destruct (set_cmap_stop _ _ _ Hc) as [Hreg _].
      split; [now left | now apply Hnone]. }
  rewrite (read_options_stop _ _ _ Hro).
  split; [left; intros x [] | intros x []].
Qed.

Lemma failed_run_draws_nothing_witness :
  let r := main (read_only_world eqa_par)
             ["-i"; "a.bin"; "-p"; "a.par"; "--cmin"; "0"; "--cmax"; "1";
              "--png"; "out.png"]%string in
  ending r = traceback Py.OtherError /\
  stdout r = ""%string /\
  (forall x, In x (calls r) ->
             x = plt_show \/ (exists f, x = plt_savefig f) ->
             plt_raises (read_only_world eqa_par) x <> None).
Proof.
  intros r.
  assert (ending r = traceback Py.OtherError) as He
    by (subst r; cbv -[wrap PI Ropp IZR Rmult Rdiv Rminus]; reflexivity).
  assert (ending r <> finished) as H by (rewrite He; discriminate).
  split; [exact He |].
  split; [subst r; cbv -[wrap PI Ropp IZR Rmult Rdiv Rminus]; reflexivity |].
  exact (proj2 (failed_run_draws_nothing _ _ H)).
Defined.

(** X15: a run that reaches its end makes these calls and no other, in
    this order: the registration of the colormap when it is [insar], one
    figure named after the input file, one image, the colour bar unless
    the colormap is [insar], the layout, and last the saving or the
    showing.  The image holds the samples as read, wrapped exactly when
    the colormap is [insar]; the figure is 6 wide for a raster with more
    rows than columns and 8 wide otherwise, and its height is the width
    less 2, scaled by rows over columns. *)
Theorem finished_run_calls (E : env) (args : list string) :
  ending (main E args) = finished ->
  exists g c w l data clim,
    read_options E args = next g /\
    get_info (read_text E (text_of (parfile g))) = Py.ok (w, l) /\
    w <> 0%Z /\
    read_img E (text_of (infile g)) l w (endian g) = Py.ok data /\
    (is_insar c = true <-> cmap g = "insar"%string) /\
    let shown :=
      if is_insar c then map (fun v => wrap v (cycle g)) data else data in
    let x := if (w <? l)%Z then 6 else 8 in
    calls (main E args)
    = (if is_insar c then [plt_register_cmap "insar"] else [])
      ++ [plt_figure (text_of (infile g)) (x, (x - 2) * IZR l / IZR w);
          plt_imshow shown clim c]
      ++ (if is_insar c then [] else [plt_colorbar])
      ++ [plt_tight_layout]
      ++ fst (save_or_show (pngname g)).
Proof.
  unfold main. intros H.
  destruct (read_options E args) as [g | r] eqn:Hro.
  2:{ exfalso. unfold read_options, usage_exit in Hro.
      destruct (Getopt.getopt args shortopts longopts) as [[opts rest] | msg];
        [| injection Hro as <-; discriminate].
      destruct (read_opts E opts defaults) as [g | r'] eqn:Hr.
      - repeat break_if; try discriminate; injection Hro as <-; discriminate.
      - injection Hro as <-. now apply read_opts_stop_ending in Hr. }
  destruct (set_cmap E (cmap g)) as [[c cs] | r] eqn:Hc.
  2:{ exfalso. destruct (set_cmap_stop _ _ _ Hc) as [_ [e He]].
      rewrite He in H. discriminate. }
  destruct (set_cmap_registered _ _ _ _ Hc) as [Hcs Hins].
  unfold get_info_or_exit in *.
  destruct (get_info (read_text E (text_of (parfile g)))) as [[w l] | e]
    eqn:Hgi; [| discriminate].
  destruct (read_img E (text_of (infile g)) l w (endian g)) as [data | e]
    eqn:Hrd; [| discriminate].
  destruct (resolve c g data) as [[d clim] | e] eqn:Hres; [| discriminate].
  apply resolve_data in Hres.
  exists g, c, w, l, data, clim.
  destruct (plot_finished _ _ _ _ _ _ _ _ H) as [Hw Hp].
  apply Z.eqb_neq in Hw.
  repeat split; try assumption; try apply Hins.
  rewrite Hp. cbn [calls]. now rewrite Hcs, Hres.
Qed.

Lemma finished_run_calls_witness :
  calls (main demo_env
    ["-i"; "a.bin"; "-p"; "a.par"; "--cmin"; "0"; "--cmax"; "1"]%string)
  = [plt_figure "a.bin" (8, (8 - 2) * IZR 1 / IZR 2);
     plt_imshow [fin 0; fin 1] (fin 0, fin 1)
       (cmap_object "SCM5.roma.reversed()");
     plt_colorbar; plt_tight_layout; plt_show].
Proof.
  assert (ending (main demo_env
    ["-i"; "a.bin"; "-p"; "a.par"; "--cmin"; "0"; "--cmax"; "1"]%string)
          = finished) as H
    by (cbv -[wrap PI Ropp IZR Rmult Rdiv Rminus]; reflexivity).
  destruct (finished_run_calls _ _ H)
    as (g & c & w & l & data & clim & _ & _ & _ & _ & _ & Hcalls).
  cbv -[wrap PI Ropp IZR Rmult Rdiv Rminus]. reflexivity.
Defined.

(** X16: a parameter file whose width is 0 is not refused: the raster is
    read and the colour range settled, and then the figure size divides by
    the width, so the run ends with a [ZeroDivisionError] traceback (exit
    status 1) and without a figure. *)
Theorem zero_width_crash (E : env) (args : list string) (g : globals)
    (c : colormap) (cs : list plt_call) (l : Z) (data : list float)
    (r : list float * (float * float)) :
  read_options E args = next g ->
  set_cmap E (cmap g) = next (c, cs) ->
  get_info (read_text E (text_of (parfile g))) = Py.ok (0%Z, l) ->
  read_img E (text_of (infile g)) l 0 (endian g) = Py.ok data ->
  resolve c g data = Py.ok r ->
  main E args
  = {| ending := traceback Py.ZeroDivisionError; stdout := "";
       stderr := ""; calls := cs |}.
Proof.
  intros Hro Hc Hgi Hrd Hres. unfold main, get_info_or_exit.
  rewrite Hro, Hc, Hgi, Hrd, Hres. destruct r as [d clim]. reflexivity.
Qed.

Lemma zero_width_crash_witness :
  exit_code (ending (main (world zero_par)
    ["-i"; "a.bin"; "-p"; "a.par"; "--cmin"; "0"; "--cmax"; "1"]%string))
  = 1%Z.
Proof.
  rewrite (zero_width_crash (world zero_par)
    ["-i"; "a.bin"; "-p"; "a.par"; "--cmin"; "0"; "--cmax"; "1"]%string
    {| infile := str "a.bin"; parfile := str "a.par";
       cmap := "SCM5.roma_r"; cmin := Some (fin 0); cmax := Some (fin 1);
       auto_crange := fin 99; cycle := fin 3; endian := little;
       pngname := empty_list |}
    (cmap_object "SCM5.roma.reversed()") [] 1 [fin 0; fin 1]
    ([fin 0; fin 1], (fin 0, fin 1))
    eq_refl eq_refl eq_refl eq_refl eq_refl).
  reflexivity.
Defined.

(** ** Order of the lines of the parameter file *)

Section LineOrder.

Local Open Scope string_scope.

Lemma filter_perm {A : Type} (f : A -> bool) (l l' : list A) :
  Permutation l l' -> Permutation (filter f l) (filter f l').
Proof.
  induction 1 as [| x l l' Hp IH | x y l | l l' l'' H1 IH1 H2 IH2]; cbn.
  - constructor.
  - destruct (f x); [now constructor | assumption].
  - destruct (f y), (f x); try reflexivity. constructor.
  - now transitivity (filter f l').
Qed.

Lemma short_perm_eq {A : Type} (l l' : list A) :
  Permutation l l' -> (List.length l <= 1)%nat -> l = l'.
Proof.
  intros Hp Hl. destruct l as [| x [| y t]]; cbn in Hl; [| | lia].
  - now apply Permutation_nil in Hp.
  - symmetry. now apply Permutation_length_1_inv.
Qed.

(** A field depends on the file only through the lines [grep] selects. *)
Lemma field_selected (key text text' : string) :
  Grep.selected key text = Grep.selected key text' ->
  field key (Some text) = field key (Some text').
Proof.
  intros H. unfold field, Grep.check_output. now rewrite H.
Qed.

End LineOrder.

(** X17: when each of the four keys occurs in at most one line of the
    parameter file, the order of the lines does not matter: any
    rearrangement of the lines gives the same width and length, or the
    same failure. *)
Theorem line_order_irrelevant (text text' : string) :
  Permutation (Grep.lines text) (Grep.lines text') ->
  (forall key,
      In key ["width"; "nlines"; "range_samples"; "azimuth_lines"]%string ->
      (List.length (Grep.selected key text) <= 1)%nat) ->
  get_info (Some text) = get_info (Some text').
Proof.
  intros Hp Hone.
  assert (forall key,
             In key ["width"; "nlines"; "range_samples";
                     "azimuth_lines"]%string ->
             field key (Some text) = field key (Some text')) as Hf.
  { intros key Hk. apply field_selected.
    apply short_perm_eq; [| now apply Hone].
    unfold Grep.selected. now apply filter_perm. }
  unfold get_info.
  rewrite (Hf "width"%string), (Hf "nlines"%string),
          (Hf "range_samples"%string), (Hf "azimuth_lines"%string)
    by (cbn; tauto).
  reflexivity.
Qed.

Lemma line_order_irrelevant_witness :
  get_info (Some ("nlines: 1" ++ nl ++ "width: 2" ++ nl)%string)
  = get_info (Some eqa_par).
Proof.
  symmetry. apply line_order_irrelevant.
  - apply perm_swap.
  - intros key Hk. cbn in Hk.
    destruct Hk as [<- | [<- | [<- | [<- | []]]]]; vm_compute; lia.
Defined.

(** ** Options that are not in the table *)

(** X18: a word that starts with a single dash followed by a letter other
    than [h], [i], [p] and [c] is refused whatever comes after it: the run
    ends with exit code 2 and the message that the option is not
    recognized, and nothing else is looked at. *)
Theorem unknown_short_option (E : env) (c : ascii) (s : string)
    (rest : list string) :
  ~ In c ["h"; "i"; "p"; "c"; "-"]%char ->
  main E (String "-" (String c s) :: rest)
  = {| ending := exited 2; stdout := "";
       stderr := (nl ++ "ERROR:  "
                  ++ ("option -" ++ String c "" ++ " not recognized")
                  ++ nl ++ nl ++ "For help, use -h or --help." ++ nl
                  ++ nl)%string;
       calls := [] |}.
Proof.
  intros Hc.
  assert (forall d, In d ["h"; "i"; "p"; "c"; "-"]%char ->
                    Ascii.eqb c d = false) as Hne.
  { intros d Hd. apply Ascii.eqb_neq. intros ->. contradiction. }
  assert (Ascii.eqb "-" c = false) as Hdash.
  { rewrite Ascii.eqb_sym. apply Hne. cbn. tauto. }
  assert (Getopt.getopt (String "-" (String c s) :: rest) shortopts longopts
          = Getopt.GetoptError
              ("option -" ++ String c "" ++ " not recognized")%string) as Hg.
  { unfold Getopt.getopt. cbn [List.length Getopt.loop].
    unfold Py.startswith. cbn [String.prefix String.eqb Ascii.eqb Bool.eqb negb orb].
    destruct (ascii_dec "-" "-") as [_ | Hn]; [| congruence].
    cbn [negb orb].
    replace (String.eqb (String c s) "-") with false.
    2:{ symmetry. cbn [String.eqb]. rewrite Ascii.eqb_sym, Hdash. reflexivity. }
    destruct (ascii_dec "-" c) as [He | _];
      [rewrite <- He, Ascii.eqb_refl in Hdash; discriminate |].
    unfold Py.drop. cbn [String.length Nat.sub substring].
    rewrite (Hne "-"%char) by (cbn; tauto).
    rewrite substring_full.
    cbn [Getopt.do_shorts shortopts Getopt.short_has_arg].
    cbn [negb Ascii.eqb Bool.eqb andb].
    rewrite !andb_false_r. rewrite !Hne by (cbn; tauto).
    reflexivity. }
  unfold main, read_options. rewrite Hg. reflexivity.
Qed.

Lemma unknown_short_option_witness :
  exited 2
  = ending (main demo_env ["-x"; "-i"; "a.bin"; "-p"; "a.par"]%string).
Proof.
  rewrite (unknown_short_option demo_env "x" "" ["-i"; "a.bin"; "-p"; "a.par"]%string).
  - reflexivity.
  - cbn. intros [H | [H | [H | [H | [H | []]]]]]; discriminate.
Defined.

(** ** Several lines with the same key *)

(** X19: when several lines of the parameter file contain a key, the
    first of them decides, provided it has at least two tokens: the field
    is the integer read from its second token, and a failure to read it is
    not made up for by the later lines. *)
Theorem first_selected_line_wins (key text l : string) (ls : list string)
    (t1 t2 : string) (ts : list string) :
  Grep.selected key text = l :: ls ->
  Py.split l = t1 :: t2 :: ts ->
  field key (Some text) = Py.int t2.
Proof.
  intros Hsel Hl. unfold field, Grep.check_output. rewrite Hsel.
  cbn [Py.bind]. rewrite split_output. cbn [flat_map]. rewrite Hl.
  cbn [app Py.item nth_error Py.bind].
  rewrite strip_solid; [reflexivity |].
  pose proof (split_solid l) as Hs. rewrite Hl in Hs.
  inversion Hs as [| ? ? _ Hs']. now inversion Hs'.
Qed.

Lemma first_selected_line_wins_witness :
  field "width"
    (Some ("width: 2" ++ nl ++ "chirp_bandwidth: 9" ++ nl)%string)
  = Py.ok 2%Z.
Proof.
  rewrite (first_selected_line_wins "width" _ "width: 2"
             ["chirp_bandwidth: 9"]%string "width:" "2" []);
    reflexivity.
Defined.

(** ** The percentage and its complement *)

Section Mirror.

Lemma nanpercentile_raises (a : list float) (q : float) (e : Py.exn) :
  Np.nanpercentile a q = Py.raise e -> e = Py.ValueError.
Proof.
  unfold Np.nanpercentile. destruct q as [| p]; [congruence |].
  destruct (Np.Rleb 0 (p / 100) && Np.Rleb (p / 100) 1); [| congruence].
  destruct (Np.remove_nan a); discriminate.
Qed.

End Mirror.

(** X20: the percentages [p] and [100 - p] give the same two automatic
    bounds with their roles exchanged, and fail together: what is [cmin]
    for one is [cmax] for the other. *)
Theorem range_mirror (p : R) (data : list float) :
  set_color_range None None (fin (100 - p)) data
  = match set_color_range None None (fin p) data with
    | Py.ok (auto, lo, hi) => Py.ok (auto, hi, lo)
    | Py.raise e => Py.raise e
    end.
Proof.
  unfold set_color_range. cbn [Np.sub].
  replace (100 - (100 - p)) with p by ring.
  destruct (Np.nanpercentile data (fin p)) as [hi | e] eqn:Hhi;
    destruct (Np.nanpercentile data (fin (100 - p))) as [lo | e'] eqn:Hlo;
    cbn [Py.bind]; try reflexivity.
  apply nanpercentile_raises in Hhi, Hlo. now subst.
Qed.
